(** * Mail-merge generator (Project_S2.py): a shallow embedding

    The class [MailMergeGenerator] of [Project_S2.py] is embedded as a record
    of its six attributes together with one function per method.  Methods
    that mutate [self] take the state and return the new one; [try]/[except]
    is modelled with an explicit result type whose error case carries
    [str(e)].  The file system, the clock and the CSV reader are outside the
    program and appear as explicit arguments.

    Python strings are modelled by [string]; a character is read as the code
    point of the same number (0..255).  The output directory is a finite map
    from paths to file contents, one file per path string.  The methods
    of the class are modelled without what they print; the console appears
    in the model of [main]. *)

From Stdlib Require Import Ascii.
From Equations Require Import Equations.
From Equations.Prop Require Import Logic.
From stdpp Require Import gmap strings list fin_maps pretty sorting.

Local Open Scope nat_scope.
#[local] Arguments String.append : simpl nomatch.
#[local] Set Warnings "-clear-no-such-hyp".

(** ** The Python library functions the program calls *)

Module Py.

(** *** Results of code that may raise *)

Inductive result (A : Type) : Type :=
| Ok (a : A)
| Raise (msg : string).
Arguments Ok {A} a.
Arguments Raise {A} msg.

(** *** Strings *)

Definition newline : ascii := "010"%char.
Definition space : ascii := " "%char.

(** [s.startswith(p)], returning what follows [p]. *)
Fixpoint strip_prefix (p s : string) : option string :=
  match p, s with
  | "", _ => Some s
  | String a p', String b s' =>
      if decide (a = b) then strip_prefix p' s' else None
  | String _ _, "" => None
  end.

Lemma strip_prefix_Some p s r : strip_prefix p s = Some r ↔ s = p +:+ r.
Proof.
  revert s. induction p as [|a p IH]; intros s; simpl.
  - split; [by intros [= ->] | by intros ->].
  - destruct s as [|b s]; [split; [done | by intros [=]] |].
    case_decide as Hab.
    + subst b. rewrite IH. split; [by intros -> | by intros [= ->]].
    + split; [done | intros [= ? ?]; by subst].
Qed.

Lemma strip_prefix_app p r : strip_prefix p (p +:+ r) = Some r.
Proof. by apply strip_prefix_Some. Qed.

Lemma string_app_nil_r s : s +:+ "" = s.
Proof. induction s; simpl; by f_equal. Qed.

Lemma string_app_assoc s1 s2 s3 : (s1 +:+ s2) +:+ s3 = s1 +:+ s2 +:+ s3.
Proof. induction s1; simpl; by f_equal. Qed.

Lemma string_length_app s1 s2 :
  String.length (s1 +:+ s2) = String.length s1 + String.length s2.
Proof. induction s1; simpl; by f_equal. Qed.

Lemma string_length_zero s : String.length s = 0 → s = "".
Proof. by destruct s. Qed.

Lemma strip_prefix_length p s r :
  strip_prefix p s = Some r →
  String.length s = String.length p + String.length r.
Proof. intros ->%strip_prefix_Some. apply string_length_app. Qed.

(** *** [re.findall(re.escape(start) + '(.*?)' + re.escape(end), text)]

    The pattern is a literal, a lazy group of characters other than the
    newline (no [re.DOTALL]), and a literal.  [adv] is the scanner's
    must-advance flag: it is set after an empty match and refuses a second
    empty match at the same position. *)

(** The lazy group followed by the literal [e]: the shortest run of
    non-newline characters after which [e] follows.  Returns the group and
    the text after [e]. *)
Fixpoint lazy_group (e : string) (adv : bool) (s : string)
  : option (string * string) :=
  match (if adv && bool_decide (e = "") then None else strip_prefix e s) with
  | Some r => Some ("", r)
  | None =>
      match s with
      | String c s' =>
          if decide (c = newline) then None
          else prod_map (String c) id <$> lazy_group e false s'
      | "" => None
      end
  end.

(** One match attempt at the head of [s]. *)
Definition match_at (start e : string) (adv : bool) (s : string)
  : option (string * string) :=
  match strip_prefix start s with
  | Some r => lazy_group e (adv && bool_decide (start = "")) r
  | None => None
  end.

Lemma lazy_group_length e adv s g r :
  lazy_group e adv s = Some (g, r) →
  String.length s = String.length g + String.length e + String.length r
  ∧ (adv = true → 0 < String.length g + String.length e).
Proof.
  revert adv g r. induction s as [|c s IH]; intros adv g r; simpl.
  - destruct (adv && bool_decide (e = "")) eqn:Hadv; [done|].
    destruct (strip_prefix e "") as [r'|] eqn:He; [|done].
    intros [= <- <-]. apply strip_prefix_length in He. simpl in *.
    split; [lia|]. intros ->. simpl in Hadv.
    apply bool_decide_eq_false in Hadv. destruct e; [done | simpl; lia].
  - destruct (if adv && bool_decide (e = "") then None
              else strip_prefix e (String c s)) as [r'|] eqn:He.
    + intros [= <- <-].
      destruct (adv && bool_decide (e = "")) eqn:Hadv; [done|].
      apply strip_prefix_length in He. simpl in *. split; [lia|].
      intros ->. simpl in Hadv.
      apply bool_decide_eq_false in Hadv. destruct e; [done | simpl; lia].
    + destruct (decide (c = newline)); [done|].
      destruct (lazy_group e false s) as [[g' r']|] eqn:Hg; [|done].
      intros [= <- <-]. apply IH in Hg as [Hg _]. simpl. split; lia.
Qed.

Lemma match_at_length start e adv s g r :
  match_at start e adv s = Some (g, r) →
  String.length r ≤ String.length s
  ∧ (adv = true → String.length r < String.length s).
Proof.
  unfold match_at. destruct (strip_prefix start s) as [r'|] eqn:Hs; [|done].
  intros [Hlen Hadv]%lazy_group_length. apply strip_prefix_length in Hs.
  split; [lia|]. intros ->. simpl in Hadv.
  case_bool_decide as Hst; [subst start; simpl in *|].
  - specialize (Hadv eq_refl). lia.
  - destruct start; [done | simpl in *; lia].
Qed.

(** The scanning loop of [findall]: search the leftmost position at which
    the pattern matches, record the group, and go on after the match. *)
Equations? findall_from (start e : string) (adv : bool) (s : string)
  : list string by wf (2 * String.length s + (if adv then 0 else 1)) lt :=
  findall_from start e adv s with inspect (match_at start e adv s) := {
    | exist _ (Some (g, r)) Hm =>
        g :: findall_from start e
               (bool_decide (String.length r = String.length s)) r
    | exist _ None Hm with s := {
        | "" => []
        | String _ s' => findall_from start e false s' } }.
Proof.
  - apply match_at_length in Hm as [Hle Hadv].
    case_bool_decide; destruct adv; lia.
  - simpl. destruct adv; lia.
Qed.

Definition re_findall (start e text : string) : list string :=
  findall_from start e false text.

(** The loop's equations, by the outcome of the match attempt. *)
Lemma findall_from_match start e adv s g r :
  match_at start e adv s = Some (g, r) →
  findall_from start e adv s
  = g :: findall_from start e
           (bool_decide (String.length r = String.length s)) r.
Proof.
  intros Hs. funelim (findall_from start e adv s).
  - pose proof (eq_trans (eq_sym Hm) Hs) as Heq. clear -Heq. by simplify_eq.
  - clear -Hs Hm. congruence.
  - clear -Hs Hm. congruence.
Qed.

Lemma findall_from_skip start e adv c s :
  match_at start e adv (String c s) = None →
  findall_from start e adv (String c s) = findall_from start e false s.
Proof.
  intros Hs. remember (String c s) as t eqn:Ht.
  funelim (findall_from start e adv t).
  - clear -Hs Hm. congruence.
  - done.
  - match goal with Heq : String _ _ = String _ _ |- _ =>
      by injection Heq as -> -> end.
Qed.

Lemma findall_from_end start e adv :
  match_at start e adv "" = None → findall_from start e adv "" = [].
Proof.
  intros Hs. remember "" as t eqn:Ht.
  funelim (findall_from start e adv t);
    [clear -Hs Hm; congruence | done | done].
Qed.

(** *** [str.replace(old, new)]

    All non-overlapping occurrences of [old], found from left to right, are
    replaced.  With an empty [old], [new] is inserted before every character
    and at the end. *)

Fixpoint interleave (new s : string) : string :=
  new +:+ match s with
          | "" => ""
          | String c s' => String c (interleave new s')
          end.

Equations? replace_from (a : ascii) (old' new s : string) : string
  by wf (String.length s) lt :=
  replace_from a old' new "" := "";
  replace_from a old' new (String c s')
    with inspect (strip_prefix (String a old') (String c s')) := {
    | exist _ (Some r) Hp => new +:+ replace_from a old' new r
    | exist _ None Hp => String c (replace_from a old' new s') }.
Proof.
  - apply strip_prefix_length in Hp. simpl in *. lia.
  - simpl. lia.
Qed.

Lemma replace_from_nil a old' new : replace_from a old' new "" = "".
Proof. by simp replace_from. Qed.

Lemma replace_from_hit a old' new s r :
  strip_prefix (String a old') s = Some r →
  replace_from a old' new s = new +:+ replace_from a old' new r.
Proof.
  intros Hs. funelim (replace_from a old' new s); [done| |congruence].
  clear -Hs Hp. congruence.
Qed.

Lemma replace_from_miss a old' new c s :
  strip_prefix (String a old') (String c s) = None →
  replace_from a old' new (String c s) = String c (replace_from a old' new s).
Proof.
  intros Hs. remember (String c s) as t eqn:Ht.
  funelim (replace_from a old' new t).
  - done.
  - match goal with Heq : String _ _ = String _ _ |- _ =>
      injection Heq as -> -> end.
    clear -Hs Hp. congruence.
  - match goal with Heq : String _ _ = String _ _ |- _ =>
      by injection Heq as -> -> end.
Qed.

Definition str_replace (s old new : string) : string :=
  match old with
  | "" => interleave new s
  | String a old' => replace_from a old' new s
  end.

(** *** [str.strip()] and [str.isspace] on the code points below 256 *)

Definition is_space (c : ascii) : bool :=
  let n := nat_of_ascii c in
  (9 <=? n) && (n <=? 13) || (28 <=? n) && (n <=? 32)
  || (n =? 133) || (n =? 160).

Fixpoint lstrip (s : string) : string :=
  match s with
  | "" => ""
  | String c s' => if is_space c then lstrip s' else s
  end.

Fixpoint rstrip (s : string) : string :=
  match s with
  | "" => ""
  | String c s' =>
      match rstrip s' with
      | "" => if is_space c then "" else String c ""
      | t => String c t
      end
  end.

Definition str_strip (s : string) : string := rstrip (lstrip s).

(** *** [sep.join(l)], [s * n], [os.path.join(a, b)] *)

Fixpoint str_join (sep : string) (l : list string) : string :=
  match l with
  | [] => ""
  | [x] => x
  | x :: l' => x +:+ sep +:+ str_join sep l'
  end.

Fixpoint str_repeat (s : string) (n : nat) : string :=
  match n with
  | 0 => ""
  | S n' => s +:+ str_repeat s n'
  end.

Definition ends_with_sep (s : string) : bool :=
  match String.rev s with
  | String c _ => bool_decide (c = "/"%char)
  | "" => false
  end.

Definition starts_with_sep (s : string) : bool :=
  match s with
  | String c _ => bool_decide (c = "/"%char)
  | "" => false
  end.

Definition os_path_join (a b : string) : string :=
  if starts_with_sep b then b
  else if bool_decide (a = "") || ends_with_sep a then a +:+ b
  else a +:+ "/" +:+ b.

(** *** [list(dict.fromkeys(l))]: the keys in insertion order; a key that is
    already present keeps its place. *)

Definition add_key (keys : list string) (k : string) : list string :=
  if bool_decide (k ∈ keys) then keys else keys ++ [k].

Definition dict_fromkeys (l : list string) : list string :=
  foldl add_key [] l.

End Py.

(** ** The class [MailMergeGenerator] *)

Module MailMergeGenerator.
Import Py.

(** A cell of a row read by [csv.DictReader]: text, or [None] where the line
    was shorter than the header.  The cells of a line longer than the header
    are stored under the key [None], which no lookup of the program reaches;
    they are left out of a row. *)
Inductive cell : Type :=
| Text (s : string)
| PyNone.

(** [str(value)] *)
Definition py_str (v : cell) : string :=
  match v with
  | Text s => s
  | PyNone => "None"
  end.

Abbreviation Row := (gmap string cell).

(** The attributes of [self]. *)
Record state : Type := State {
  template_content : string;
  csv_data : list Row;
  placeholders : list string;
  output_dir : string;
  current_delimiters : string * string;
  errors : list string }.

Definition DEFAULT_DELIMITERS : string * string := ("{{", "}}").

(** [__init__]: the attributes of a new generator. *)
Definition __init__ : state :=
  {| template_content := "";
     csv_data := [];
     placeholders := [];
     output_dir := "output";
     current_delimiters := DEFAULT_DELIMITERS;
     errors := [] |}.

(** Attribute assignments. *)
Definition set_template_content (v : string) (st : state) : state :=
  State v (csv_data st) (placeholders st) (output_dir st)
        (current_delimiters st) (errors st).
Definition set_csv_data (v : list Row) (st : state) : state :=
  State (template_content st) v (placeholders st) (output_dir st)
        (current_delimiters st) (errors st).
Definition set_placeholders (v : list string) (st : state) : state :=
  State (template_content st) (csv_data st) v (output_dir st)
        (current_delimiters st) (errors st).
Definition set_current_delimiters (v : string * string) (st : state) : state :=
  State (template_content st) (csv_data st) (placeholders st) (output_dir st)
        v (errors st).
(** [self.errors.append(msg)] *)
Definition errors_append (msg : string) (st : state) : state :=
  State (template_content st) (csv_data st) (placeholders st) (output_dir st)
        (current_delimiters st) (errors st ++ [msg]).

(** *** The world outside the program *)

(** What [open(path, 'r')] followed by reading (and, for the CSV file, by
    [csv.DictReader]) gives. *)
Inductive opened (A : Type) : Type :=
| FileNotFound
| ReadFails (msg : string)
| Contents (a : A).
Arguments FileNotFound {A}.
Arguments ReadFails {A} msg.
Arguments Contents {A} a.

Record Env : Type := {
  open_template : string → opened string;
  open_csv : string → opened (list Row) }.

(** The output side of the file system: the files by path, and what goes
    wrong there.  [write_error] gives the paths at which [open(path, 'w')]
    raises, [makedirs_error] those at which creating the directory does.
    Once a file is open for writing it exists and is empty; [write_fault]
    tells for which text writing or closing it then raises, and what the file
    is left with. *)
Record FS : Type := {
  files : gmap string string;
  write_error : string → option string;
  write_fault : string → string → option (string * string);
  makedirs_error : string → option string }.

(** [os.path.exists(path)] *)
Definition os_path_exists (fs : FS) (path : string) : bool :=
  bool_decide (is_Some (files fs !! path)).

(** The directory with [content] in the file at [path]. *)
Definition with_file (fs : FS) (path content : string) : FS :=
  {| files := <[path := content]> (files fs);
     write_error := write_error fs;
     write_fault := write_fault fs;
     makedirs_error := makedirs_error fs |}.

(** [with open(path, 'w') as file: file.write(content)]: the directory
    afterwards, and whether the statement raised.  When [open] raises
    nothing has changed; when writing or closing raises, the file has
    already been created or emptied and keeps what reached it. *)
Definition write_file (fs : FS) (path content : string)
  : FS * result unit :=
  match write_error fs path with
  | Some msg => (fs, Raise msg)
  | None =>
      match write_fault fs path content with
      | Some (msg, rest) => (with_file fs path rest, Raise msg)
      | None => (with_file fs path content, Ok tt)
      end
  end.

(** *** Template and delimiters *)

Definition _extract_placeholders (st : state) : state :=
  let start := (current_delimiters st).1 in
  let e := (current_delimiters st).2 in
  let matches := re_findall start e (template_content st) in
  set_placeholders (dict_fromkeys matches) st.

Definition load_template (env : Env) (template_path : string) (st : state)
  : state * bool :=
  match open_template env template_path with
  | Contents text =>
      (_extract_placeholders (set_template_content text st), true)
  | FileNotFound =>
      (errors_append ("Template file not found: " +:+ template_path) st, false)
  | ReadFails msg =>
      (errors_append ("Error reading template: " +:+ msg) st, false)
  end.

Definition set_delimiters (start e : string) (st : state) : state :=
  let st := set_current_delimiters (start, e) st in
  if bool_decide (template_content st ≠ "") then _extract_placeholders st
  else st.

(** *** Rows *)

(** Raises [IndexError] on an empty row list ([self.csv_data[0]]). *)
Definition _validate_csv_headers (st : state) : result (state * bool) :=
  match csv_data st with
  | [] => Raise "list index out of range"
  | row0 :: _ =>
      let missing := filter (λ ph, row0 !! ph = None) (placeholders st) in
      if bool_decide (missing ≠ []) then
        Ok (errors_append ("CSV missing required columns: "
                           +:+ str_join ", " missing) st, false)
      else Ok (st, true)
  end.

Definition load_csv_data (env : Env) (csv_path : string) (st : state)
  : state * bool :=
  match open_csv env csv_path with
  | Contents rows =>
      let st := set_csv_data rows st in
      if bool_decide (csv_data st = []) then
        (errors_append "CSV file contains no data" st, false)
      else
        match _validate_csv_headers st with
        | Ok r => r
        | Raise msg => (errors_append ("Error reading CSV: " +:+ msg) st, false)
        end
  | FileNotFound =>
      (errors_append ("CSV file not found: " +:+ csv_path) st, false)
  | ReadFails msg =>
      (errors_append ("Error reading CSV: " +:+ msg) st, false)
  end.

(** *** Merge *)

Definition _merge_template (st : state) (data : Row) : string :=
  let start := (current_delimiters st).1 in
  let e := (current_delimiters st).2 in
  foldl (λ content placeholder,
           let value :=
             default (Text (placeholder +:+ "_NOT_FOUND")) (data !! placeholder) in
           str_replace content (start +:+ placeholder +:+ e) (py_str value))
        (template_content st) (placeholders st).

Definition get_errors (st : state) : list string := errors st.

Definition clear_errors (st : state) : state :=
  State (template_content st) (csv_data st) (placeholders st) (output_dir st)
        (current_delimiters st) [].

(** *** Output *)

Definition _ready_to_generate (st : state) : state * bool :=
  if bool_decide (template_content st = "") then
    (errors_append "No template loaded" st, false)
  else if bool_decide (csv_data st = []) then
    (errors_append "No CSV data loaded" st, false)
  else (st, true).

(** The base name of the file of row [i] (counted from 0).  [None] and the
    empty string are both falsy; [.strip()] on [None] raises. *)
Definition base_filename (filename_field : option string) (i : nat) (row : Row)
  : result string :=
  let fallback := "document_" +:+ pretty (i + 1) in
  match filename_field with
  | Some field =>
      if bool_decide (field ≠ "") then
        match row !! field with
        | Some (Text v) => Ok (str_replace (str_strip v) " " "_")
        | Some PyNone => Raise "'NoneType' object has no attribute 'strip'"
        | None => Ok fallback
        end
      else Ok fallback
  | None => Ok fallback
  end.

(** The collision loop
    [while os.path.exists(output_path): ...; counter += 1].
    [fuel] bounds the number of iterations; [None] means it ran out. *)
Fixpoint probe (fuel : nat) (fs : FS) (dir base_filename output_path : string)
    (counter : nat) : option string :=
  if os_path_exists fs output_path then
    match fuel with
    | 0 => None
    | S fuel' =>
        let filename := base_filename +:+ "_" +:+ pretty counter +:+ ".txt" in
        probe fuel' fs dir base_filename (os_path_join dir filename) (S counter)
    end
  else Some output_path.

(** The path a row is written to.  The loop cannot run longer than there
    are files (see [free_output_path_total]). *)
Definition free_output_path (fs : FS) (dir base_filename : string)
  : option string :=
  let filename := base_filename +:+ ".txt" in
  probe (S (size (files fs))) fs dir base_filename
        (os_path_join dir filename) 1.

Definition row_error (i : nat) (msg : string) : string :=
  "Error processing row " +:+ pretty (i + 1) +:+ ": " +:+ msg.

Definition separator : string :=
  String newline "" +:+ str_repeat "=" 80 +:+ String newline "".

Section Loops.
(** [self._merge_template], as the loops call it inside [try]: a call
    dispatched on [self] that may raise. *)
Variable merge : state → Row → result string.

(** The body of [try] in [_generate_individual_files]. *)
Definition write_row (filename_field : option string) (i : nat) (row : Row)
    (st : state) (fs : FS) : option (FS * result unit) :=
  match merge st row with
  | Raise msg => Some (fs, Raise msg)
  | Ok content =>
      match base_filename filename_field i row with
      | Raise msg => Some (fs, Raise msg)
      | Ok base =>
          match free_output_path fs (output_dir st) base with
          | None => None
          | Some output_path => Some (write_file fs output_path content)
          end
      end
  end.

(** [for i, row in enumerate(self.csv_data)], from row [i] on. *)
Fixpoint individual_loop (filename_field : option string) (i : nat)
    (rows : list Row) (st : state) (fs : FS) (success_count : nat)
  : option (state * FS * nat) :=
  match rows with
  | [] => Some (st, fs, success_count)
  | row :: rows' =>
      match write_row filename_field i row st fs with
      | None => None
      | Some (fs', Ok _) =>
          individual_loop filename_field (S i) rows' st fs' (S success_count)
      | Some (fs', Raise msg) =>
          individual_loop filename_field (S i) rows'
            (errors_append (row_error i msg) st) fs' success_count
      end
  end.

Definition individual_with (filename_field : option string) (st : state)
    (fs : FS) : option (state * FS * bool) :=
  match individual_loop filename_field 0 (csv_data st) st fs 0 with
  | Some (st', fs', success_count) =>
      Some (st', fs', bool_decide (0 < success_count))
  | None => None
  end.

Fixpoint combined_loop (i : nat) (rows : list Row) (st : state)
    (combined_content : list string) (success_count : nat)
  : state * list string * nat :=
  match rows with
  | [] => (st, combined_content, success_count)
  | row :: rows' =>
      match merge st row with
      | Ok content =>
          combined_loop (S i) rows' st
            (combined_content ++ [content] ++ [separator]) (S success_count)
      | Raise msg =>
          combined_loop (S i) rows' (errors_append (row_error i msg) st)
            combined_content success_count
      end
  end.

(** [timestamp] is [datetime.now().strftime("%Y%m%d_%H%M%S")]. *)
Definition combined_with (timestamp : string) (st : state) (fs : FS)
  : state * FS * bool :=
  let output_path :=
    os_path_join (output_dir st)
                 ("combined_output_" +:+ timestamp +:+ ".txt") in
  let '(st', combined_content, success_count) :=
    combined_loop 0 (csv_data st) st [] 0 in
  if bool_decide (success_count ≠ 0) then
    match write_file fs output_path
                     (str_join (String newline "") combined_content) with
    | (fs', Ok _) => (st', fs', true)
    | (fs', Raise msg) =>
        (errors_append ("Error writing combined file: " +:+ msg) st', fs',
         false)
    end
  else (st', fs, false).
End Loops.

(** The methods, with the class's own [_merge_template], which does not
    raise. *)
Definition own_merge (st : state) (row : Row) : result string :=
  Ok (_merge_template st row).

Definition _generate_individual_files (filename_field : option string)
    (st : state) (fs : FS) : option (state * FS * bool) :=
  individual_with own_merge filename_field st fs.

Definition _generate_combined_output (timestamp : string) (st : state)
    (fs : FS) : state * FS * bool :=
  combined_with own_merge timestamp st fs.

(** [generate_output]; [os.makedirs] is outside [try], so what it raises
    reaches the caller. *)
Definition generate_output (output_format : string)
    (filename_field : option string) (timestamp : string) (st : state)
    (fs : FS) : option (result (state * FS * bool)) :=
  match _ready_to_generate st with
  | (st', false) => Some (Ok (st', fs, false))
  | (st', true) =>
      match makedirs_error fs (output_dir st') with
      | Some msg => Some (Raise msg)
      | None =>
          if bool_decide (output_format = "combined") then
            Some (Ok (_generate_combined_output timestamp st' fs))
          else Ok <$> _generate_individual_files filename_field st' fs
      end
  end.

(** Choice 3 of the menu in [main]: empty input falls back to the default
    markers. *)
Definition or_default (s d : string) : string :=
  if bool_decide (s = "") then d else s.

Definition menu_set_delimiters (start_input end_input : string) (st : state)
  : state :=
  let start := or_default (str_strip start_input) "{{" in
  let e := or_default (str_strip end_input) "}}" in
  set_delimiters start e st.

(** *** The states a generator object can be in

    A generator starts in [__init__] and changes through calls of its methods,
    with any arguments and against any environment.  [allowed] restricts the
    arguments given to [set_delimiters] directly; the menu's delimiter choice
    takes any input. *)
Inductive reachable (allowed : string → string → Prop) : state → Prop :=
| reach_init : reachable allowed __init__
| reach_load_template env path st :
    reachable allowed st →
    reachable allowed (load_template env path st).1
| reach_set_delimiters start e st :
    reachable allowed st → allowed start e →
    reachable allowed (set_delimiters start e st)
| reach_menu_set_delimiters start_input end_input st :
    reachable allowed st →
    reachable allowed (menu_set_delimiters start_input end_input st)
| reach_load_csv_data env path st :
    reachable allowed st →
    reachable allowed (load_csv_data env path st).1
| reach_generate_output fmt field timestamp st fs st' fs' ok :
    reachable allowed st →
    generate_output fmt field timestamp st fs = Some (Ok (st', fs', ok)) →
    reachable allowed st'
| reach_clear_errors st :
    reachable allowed st → reachable allowed (clear_errors st).

Definition any_pair (start e : string) : Prop := True.
Definition nonempty_pair (start e : string) : Prop := start ≠ "" ∧ e ≠ "".

End MailMergeGenerator.

Import Py MailMergeGenerator.

(** ** The built-in examples and the menu of [main] *)

Module Main.

(** [MailMergeGenerator.get_template_example] *)
Definition get_template_example : string :=
"Dear {{first_name}} {{last_name}},

We are pleased to inform you about your recent order #{{order_id}}.

Order details:
- Item: {{product_name}}
- Quantity: {{quantity}}
- Total: {{total_amount}}

Please contact us at {{contact_email}} if you have any questions.

Best regards,
{{company_name}}".

(** [MailMergeGenerator.get_csv_example] *)
Definition get_csv_example : string :=
  "first_name,last_name,order_id,product_name,quantity,total_amount,contact_email,company_name".

(** *** The console

    What is written to the standard output, call by call, and the lines
    still to be read from the standard input. *)
Inductive output : Type :=
| Print (text : string)
| Prompt (text : string).

Record world : Type := World {
  merger : state;
  disk : FS;
  stdin : list string;
  stdout : list output }.

Definition set_merger (st : state) (w : world) : world :=
  World st (disk w) (stdin w) (stdout w).

(** [print(text)] *)
Definition print (text : string) (w : world) : world :=
  World (merger w) (disk w) (stdin w) (stdout w ++ [Print text]).

(** [input(prompt)]: the prompt is written and a line is read; at the end
    of the input [None] stands for the [EOFError]. *)
Definition input (prompt : string) (w : world) : option string * world :=
  let w := World (merger w) (disk w) (stdin w) (stdout w ++ [Prompt prompt]) in
  match stdin w with
  | [] => (None, w)
  | line :: rest => (Some line, World (merger w) (disk w) rest (stdout w))
  end.

(** How one pass through the loop body ends: at the end of the body or a
    [continue], at [break], or with an exception nobody catches. *)
Inductive step_result : Type :=
| Continue (w : world)
| Break (w : world)
| Uncaught (msg : string) (w : world).

Definition world_of (r : step_result) : world :=
  match r with
  | Continue w | Break w | Uncaught _ w => w
  end.

Definition with_input (prompt : string) (w : world)
    (k : string → world → option step_result) : option step_result :=
  match input prompt w with
  | (Some line, w') => k line w'
  | (None, w') => Some (Uncaught "EOF when reading a line" w')
  end.

(** [for err in merger.get_errors(): print(f"- {err}")] followed by
    [merger.clear_errors()] *)
Definition report_errors (w : world) : world :=
  let w := foldl (λ w err, print ("- " +:+ err) w) w (get_errors (merger w)) in
  set_merger (clear_errors (merger w)) w.

(** What [generate_output] itself prints while it runs. *)
Definition generate_output_prints (output_format : string)
    (filename_field : option string) (timestamp : string) (st : state)
    (fs : FS) : list string :=
  match _ready_to_generate st with
  | (_, false) => []
  | (st', true) =>
      match makedirs_error fs (output_dir st') with
      | Some _ => []
      | None =>
          if bool_decide (output_format = "combined") then
            let '(_, combined_content, success_count) :=
              combined_loop own_merge 0 (csv_data st') st' [] 0 in
            if bool_decide (success_count ≠ 0) then
              match write_file fs
                      (os_path_join (output_dir st')
                         ("combined_output_" +:+ timestamp +:+ ".txt"))
                      (str_join (String newline "") combined_content) with
              | (_, Ok _) =>
                  ["Successfully generated combined document with "
                   +:+ pretty success_count +:+ " entries"]
              | (_, Raise _) => []
              end
            else []
          else
            match individual_loop own_merge filename_field 0 (csv_data st')
                                  st' fs 0 with
            | Some (_, _, success_count) =>
                ["Successfully generated " +:+ pretty success_count
                 +:+ " documents"]
            | None => []
            end
      end
  end.

Definition menu_text : string :=
"
Main Menu:
1. Load Template
2. Load CSV Data
3. Set Custom Delimiters
4. Generate Output
5. View Examples
6. Exit".

(** *** The branches of the loop body

    [env] tells what reading a file gives, given the files written so far;
    [timestamp] is the time at which the pass runs. *)

Definition choice_load_template (env : FS → Env) (w : world)
  : option step_result :=
  with_input "Template file path: " w (λ line w,
    let path := str_strip line in
    let r := load_template (env (disk w)) path (merger w) in
    let w := set_merger r.1 w in
    if r.2 then
      Some (Continue
              (print ("Loaded. Found "
                      +:+ pretty (length (placeholders (merger w)))
                      +:+ " placeholders.") w))
    else Some (Continue (report_errors w))).

Definition choice_load_csv (env : FS → Env) (w : world)
  : option step_result :=
  with_input "CSV file path: " w (λ line w,
    let path := str_strip line in
    let r := load_csv_data (env (disk w)) path (merger w) in
    let w := set_merger r.1 w in
    if r.2 then
      Some (Continue
              (print ("Loaded " +:+ pretty (length (csv_data (merger w)))
                      +:+ " records.") w))
    else Some (Continue (report_errors w))).

Definition choice_set_delimiters (w : world) : option step_result :=
  with_input "Start delimiter (default '{{'): " w (λ start_input w,
    with_input "End delimiter (default '}}'): " w (λ end_input w,
      let start := or_default (str_strip start_input) "{{" in
      let e := or_default (str_strip end_input) "}}" in
      let w := set_merger (menu_set_delimiters start_input end_input (merger w))
                          w in
      Some (Continue
              (print ("Delimiters set to " +:+ start +:+ "placeholder"
                      +:+ e +:+ ".") w)))).

Definition run_generate (output_format : string)
    (filename_field : option string) (timestamp : string) (w : world)
  : option step_result :=
  match generate_output output_format filename_field timestamp
                        (merger w) (disk w) with
  | None => None
  | Some (Raise msg) => Some (Uncaught msg w)
  | Some (Ok (st', fs', ok)) =>
      let printed :=
        generate_output_prints output_format filename_field timestamp
                               (merger w) (disk w) in
      let w := World st' fs' (stdin w) (stdout w ++ (Print <$> printed)) in
      if ok then Some (Continue (print "Generation complete!" w))
      else Some (Continue (report_errors w))
  end.

Definition choice_generate (timestamp : string) (w : world)
  : option step_result :=
  if bool_decide (template_content (merger w) = "")
     || bool_decide (csv_data (merger w) = []) then
    Some (Continue (print "Load both template and CSV first." w))
  else
    with_input "Output: 1=separate files, 2=combined file: " w (λ line w,
      let fmt := str_strip line in
      if bool_decide (fmt = "1") then
        with_input "CSV field for filename (optional): " w (λ line w,
          let field := str_strip line in
          run_generate "separate"
                       (if bool_decide (field = "") then None else Some field)
                       timestamp w)
      else run_generate "combined" None timestamp w).

Definition choice_examples (w : world) : option step_result :=
  let w := print (String newline "Template Example:" +:+ String newline ""
                  +:+ get_template_example) w in
  let w := print (String newline "CSV Header Example:" +:+ String newline ""
                  +:+ get_csv_example) w in
  Some (Continue w).

(** One pass through the body of [while True].  [None] means that the
    collision loop of individual mode ran out of fuel. *)
Definition menu_iteration (env : FS → Env) (timestamp : string) (w : world)
  : option step_result :=
  let w := print menu_text w in
  with_input "Enter your choice (1-6): " w (λ line w,
    let choice := str_strip line in
    if bool_decide (choice = "1") then choice_load_template env w
    else if bool_decide (choice = "2") then choice_load_csv env w
    else if bool_decide (choice = "3") then choice_set_delimiters w
    else if bool_decide (choice = "4") then choice_generate timestamp w
    else if bool_decide (choice = "5") then choice_examples w
    else if bool_decide (choice = "6") then Some (Break (print "Goodbye!" w))
    else Some (Continue (print "Invalid choice. Enter 1-6." w))).

(** [while True]: pass [n] runs at time [clock n].  [fuel] bounds the number
    of passes. *)
Fixpoint main_loop (env : FS → Env) (clock : nat → string) (fuel n : nat)
    (w : world) : option step_result :=
  match fuel with
  | 0 => None
  | S fuel' =>
      match menu_iteration env (clock n) w with
      | Some (Continue w') => main_loop env clock fuel' (S n) w'
      | r => r
      end
  end.

(** [main()], run on the input [lines] with the files [fs]: every pass reads
    at least one line, so one pass per line and one more are enough. *)
Definition main (env : FS → Env) (clock : nat → string) (lines : list string)
    (fs : FS) : option step_result :=
  let w := print (String newline "=== Mail Merge Generator ===")
                 (World __init__ fs lines []) in
  main_loop env clock (S (length lines)) 0 w.

End Main.

Import Main.

(** ** The vocabulary of the properties *)

(** Two states agree on everything but the error log and the rows. *)
Definition same_template (st st' : state) : Prop :=
  template_content st' = template_content st
  ∧ placeholders st' = placeholders st
  ∧ output_dir st' = output_dir st
  ∧ current_delimiters st' = current_delimiters st.

(** The names of [placeholders st] that are not keys of [row]. *)
Definition missing_in (row : Row) (st : state) : list string :=
  filter (λ ph, row !! ph = None) (placeholders st).

Fixpoint string_map (f : ascii → ascii) (s : string) : string :=
  match s with
  | "" => ""
  | String c s' => String (f c) (string_map f s')
  end.

Fixpoint string_forallb (p : ascii → bool) (s : string) : bool :=
  match s with
  | "" => true
  | String c s' => p c && string_forallb p s'
  end.

Definition head_char (s : string) : option ascii :=
  match s with
  | "" => None
  | String c _ => Some c
  end.

Fixpoint last_char (s : string) : option ascii :=
  match s with
  | "" => None
  | String c s' => match s' with "" => Some c | _ => last_char s' end
  end.

(** What C9 describes: every whitespace character inside the stripped value
    becomes an underscore. *)
Definition whitespace_to_underscores (v : string) : string :=
  string_map (λ c, if is_space c then "_"%char else c) (str_strip v).

(** What the code does: only the space character becomes an underscore. *)
Definition spaces_to_underscores (v : string) : string :=
  string_map (λ c, if decide (c = space) then "_"%char else c) (str_strip v).

(** The names the collision loop tries, in order: [base.txt], [base_1.txt],
    [base_2.txt], ... *)
Definition numbered_filename (base : string) (k : nat) : string :=
  match k with
  | 0 => base +:+ ".txt"
  | S _ => base +:+ "_" +:+ pretty k +:+ ".txt"
  end.

Definition candidate_path (dir base : string) (k : nat) : string :=
  os_path_join dir (numbered_filename base k).

Definition keeps_files (fs fs' : FS) : Prop :=
  ∀ p c, files fs !! p = Some c → files fs' !! p = Some c.

(** [p] is the first of [base.txt], [base_1.txt], [base_2.txt], ... under
    [dir] that is not in the directory [fs]. *)
Definition first_unused (fs : FS) (dir base p : string) : Prop :=
  ∃ k, p = candidate_path dir base k
       ∧ files fs !! p = None
       ∧ ∀ i, i < k → is_Some (files fs !! candidate_path dir base i).

(** What individual mode does with row [i] when its turn comes with the
    directory being [fs]: the directory it leaves, and whether the body of
    [try] raised.  The row's file is the first unused path for its base name
    in [fs], the directory as the rows before it left it. *)
Inductive RowHandled (merge : state → Row → result string)
    (filename_field : option string) (st : state) (i : nat) (row : Row)
    (fs : FS) : FS → result unit → Prop :=
| handled_merge_raises msg :
    merge st row = Raise msg →
    RowHandled merge filename_field st i row fs fs (Raise msg)
| handled_name_raises content msg :
    merge st row = Ok content →
    base_filename filename_field i row = Raise msg →
    RowHandled merge filename_field st i row fs fs (Raise msg)
| handled_open_raises content base p msg :
    merge st row = Ok content →
    base_filename filename_field i row = Ok base →
    first_unused fs (output_dir st) base p →
    write_error fs p = Some msg →
    RowHandled merge filename_field st i row fs fs (Raise msg)
| handled_write_raises content base p msg rest :
    merge st row = Ok content →
    base_filename filename_field i row = Ok base →
    first_unused fs (output_dir st) base p →
    write_error fs p = None →
    write_fault fs p content = Some (msg, rest) →
    RowHandled merge filename_field st i row fs (with_file fs p rest)
               (Raise msg)
| handled_written content base p :
    merge st row = Ok content →
    base_filename filename_field i row = Ok base →
    first_unused fs (output_dir st) base p →
    write_error fs p = None →
    write_fault fs p content = None →
    RowHandled merge filename_field st i row fs (with_file fs p content)
               (Ok tt).

(** The state and the count of successes after a row, from those before. *)
Definition after_row (i : nat) (r : result unit) (st : state) (n : nat)
  : state * nat :=
  match r with
  | Ok _ => (st, S n)
  | Raise msg => (errors_append (row_error i msg) st, n)
  end.

(** [t] is [s] with the occurrences of [old], taken from left to right
    without overlap, replaced by [new].  With an empty [old] every position
    is an occurrence. *)
Inductive ReplacedAll (old new : string) : string → string → Prop :=
| replaced_none s :
    old ≠ "" → (∀ p r, s ≠ p +:+ old +:+ r) → ReplacedAll old new s s
| replaced_first p r r' :
    old ≠ "" →
    (∀ p' r'', p +:+ old +:+ r = p' +:+ old +:+ r'' →
               String.length p ≤ String.length p') →
    ReplacedAll old new r r' →
    ReplacedAll old new (p +:+ old +:+ r) (p +:+ new +:+ r')
| replaced_empty_end :
    old = "" → ReplacedAll old new "" new
| replaced_empty_char c s t :
    old = "" → ReplacedAll old new s t →
    ReplacedAll old new (String c s) (new +:+ String c t).

(** The text a placeholder is replaced by: [data.get(name, name_NOT_FOUND)]
    converted with [str]. *)
Definition value_for (row : Row) (name : string) : string :=
  match row !! name with
  | Some v => py_str v
  | None => name +:+ "_NOT_FOUND"
  end.

(** [t] is [s] after one replacement pass per name, in list order, each pass
    working on the text the one before it left. *)
Inductive MergedFrom (start e : string) (row : Row)
  : list string → string → string → Prop :=
| merged_nil s : MergedFrom start e row [] s s
| merged_cons name names s s' t :
    ReplacedAll (start +:+ name +:+ e) (value_for row name) s s' →
    MergedFrom start e row names s' t →
    MergedFrom start e row (name :: names) s t.

Definition merge_step (start e : string) (row : Row) (content name : string)
  : string :=
  str_replace content (start +:+ name +:+ e) (value_for row name).

Fixpoint contains_char (a : ascii) (s : string) : bool :=
  match s with
  | "" => false
  | String c s' => bool_decide (c = a) || contains_char a s'
  end.

(** The pattern can match at the head of [s] with group [g], leaving [r]:
    [s] starts with [start], [g], [e]; [g] has no newline; and where the
    scanner must advance ([adv]) the match is not empty. *)
Definition head_match (start e : string) (adv : bool) (s g r : string) : Prop :=
  s = start +:+ g +:+ e +:+ r
  ∧ contains_char newline g = false
  ∧ (adv = true → start +:+ g +:+ e ≠ "").

(** The lazy match: the head match with the shortest group. *)
Definition lazy_match (start e : string) (adv : bool) (s g r : string) : Prop :=
  head_match start e adv s g r
  ∧ ∀ g' r', head_match start e adv s g' r' →
             String.length g ≤ String.length g'.

(** The must-advance flag holds at the position the scan starts from only. *)
Definition adv_at (adv : bool) (p : string) : bool :=
  adv && bool_decide (p = "").

(** [gs] are the groups of the matches in [s], found from left to right:
    each match is the lazy match at the first position, after the end of
    the match before it, where the pattern matches at all.  After an empty
    match the next one must advance. *)
Inductive Scanned (start e : string) : bool → string → list string → Prop :=
| scanned_none adv s :
    (∀ p t g r, s = p +:+ t → ¬ head_match start e (adv_at adv p) t g r) →
    Scanned start e adv s []
| scanned_match adv p t g r gs :
    (∀ p' t' g' r', p +:+ t = p' +:+ t' → String.length p' < String.length p →
                    ¬ head_match start e (adv_at adv p') t' g' r') →
    lazy_match start e (adv_at adv p) t g r →
    Scanned start e (bool_decide (start +:+ g +:+ e = "")) r gs →
    Scanned start e adv (p +:+ t) (g :: gs).

(** ** Example inputs *)

Definition row_a : Row := {[ "a" := Text "1" ]}.
Definition state_a_b : state :=
  set_placeholders ["a"; "b"] (set_csv_data [row_a] __init__).

(** A generator that holds the template ["{{a}}"] and one row with column
    [a], and an environment whose CSV file has the single column [b]. *)
Definition row_b : Row := {[ "b" := Text "2" ]}.
Definition state_loaded_a : state :=
  set_csv_data [row_a]
    (_extract_placeholders (set_template_content "{{a}}" __init__)).
Definition env_csv_b : Env :=
  {| open_template := λ _, FileNotFound;
     open_csv := λ _, Contents [row_b] |}.

Definition env_no_files : Env :=
  {| open_template := λ _, FileNotFound; open_csv := λ _, FileNotFound |}.

Definition env_empty_template : Env :=
  {| open_template := λ _, Contents ""; open_csv := λ _, FileNotFound |}.

Definition tab : ascii := "009"%char.
Definition a_tab_b : string := String "a" (String tab "b").
Definition row_name_tab : Row := {[ "name" := Text a_tab_b ]}.

Definition row_name_spaces : Row := {[ "name" := Text " John Smith " ]}.

Definition fs_empty : FS :=
  {| files := ∅; write_error := λ _, None; write_fault := λ _ _, None;
     makedirs_error := λ _, None |}.

Definition row_john : Row := {[ "name" := Text "John Smith" ]}.
Definition state_one_row : state :=
  set_csv_data [row_john]
    (_extract_placeholders (set_template_content "Dear {{name}}" __init__)).

(** A template and two rows that give the same file name. *)
Definition row_ann_7 : Row := {[ "name" := Text "Ann Lee"; "id" := Text "7" ]}.
Definition row_ann_8 : Row := {[ "name" := Text "Ann Lee"; "id" := Text "8" ]}.
Definition env_orders : Env :=
  {| open_template := λ _, Contents "Dear {{name}}, order {{id}}";
     open_csv := λ _, Contents [row_ann_7; row_ann_8] |}.
Definition state_orders : state :=
  (load_csv_data env_orders "orders.csv"
     (load_template env_orders "letter.txt" __init__).1).1.

Definition state_hi_x : state :=
  _extract_placeholders (set_template_content "Hi {{x}}!" __init__).

Definition name_with_newline : string := String "a" (String newline "b").
Definition state_newline_name : state :=
  set_template_content ("{{" +:+ name_with_newline +:+ "}}") __init__.
Definition text_two_lines : string :=
  "{{" +:+ name_with_newline +:+ "}} {{c}}" +:+ String newline "{{d}}".


(** ** Further vocabulary *)

(** The placeholder list is the one extraction computes from the template
    and the delimiters the state holds. *)
Definition placeholders_in_sync (st : state) : Prop :=
  placeholders st
  = dict_fromkeys (re_findall (current_delimiters st).1
                              (current_delimiters st).2
                              (template_content st)).

(** The path of the file of row [i] (counted from 0) when no filename field
    is used. *)
Definition document_path (dir : string) (i : nat) : string :=
  os_path_join dir ("document_" +:+ pretty (i + 1) +:+ ".txt").

(** The log entries of the rows that failed, given as pairs of the row's
    position (counted from 0) and the message of the exception. *)
Definition row_errors (fails : list (nat * string)) : list string :=
  (λ p, row_error p.1 p.2) <$> fails.

(** The filename field selects no column: none is given, it is empty, or no
    row has it. *)
Definition unused_field (filename_field : option string) (rows : list Row)
  : Prop :=
  match filename_field with
  | None => True
  | Some field => field = "" ∨ Forall (λ row : Row, row !! field = None) rows
  end.

(** The pieces combined mode joins when no row fails: each merged row
    followed by the separator. *)
Definition combined_pieces (st : state) (rows : list Row) : list string :=
  rows ≫= λ row, [_merge_template st row; separator].

Definition combined_path (st : state) (timestamp : string) : string :=
  os_path_join (output_dir st) ("combined_output_" +:+ timestamp +:+ ".txt").

(** Rows for individual mode of which the second has [None] under [name]. *)
Definition row_no_name : Row := {[ "name" := PyNone ]}.
Definition state_mixed_rows : state :=
  set_csv_data [row_john; row_no_name; row_john]
    (_extract_placeholders (set_template_content "Dear {{name}}" __init__)).

(** An entry of the error log that reports a failed row. *)
Definition is_row_error (entry : string) : Prop :=
  ∃ i msg, entry = row_error i msg.

(** What one pass through the menu can do to the generator: nothing, a load,
    new delimiters, or a generation with both inputs loaded; after an
    operation that returned [False] the error log is cleared. *)
Inductive menu_transition : state → state → Prop :=
| menu_nothing st : menu_transition st st
| menu_load_template env path st :
    (load_template env path st).2 = true →
    menu_transition st (load_template env path st).1
| menu_load_template_failed env path st :
    (load_template env path st).2 = false →
    menu_transition st (clear_errors (load_template env path st).1)
| menu_load_csv env path st :
    (load_csv_data env path st).2 = true →
    menu_transition st (load_csv_data env path st).1
| menu_load_csv_failed env path st :
    (load_csv_data env path st).2 = false →
    menu_transition st (clear_errors (load_csv_data env path st).1)
| menu_delimiters start_input end_input st :
    menu_transition st (menu_set_delimiters start_input end_input st)
| menu_generated fmt field ts st fs st' fs' :
    template_content st ≠ "" → csv_data st ≠ [] →
    generate_output fmt field ts st fs = Some (Ok (st', fs', true)) →
    menu_transition st st'
| menu_generate_failed fmt field ts st fs st' fs' :
    template_content st ≠ "" → csv_data st ≠ [] →
    generate_output fmt field ts st fs = Some (Ok (st', fs', false)) →
    menu_transition st (clear_errors st').

(** What a pass through the menu guarantees, seen from the world [w] it
    started in (after the choice was read when [strict] is false). *)
Definition pass_ok (strict : bool) (w : world) (r : step_result) : Prop :=
  menu_transition (merger w) (merger (world_of r))
  ∧ (if strict then
       ∀ w', r = Continue w' → length (stdin w') < length (stdin w)
     else length (stdin (world_of r)) ≤ length (stdin w))
  ∧ (errors (merger (world_of r)) = []
     ∨ errors (merger (world_of r)) = errors (merger w)
     ∨ last (stdout (world_of r)) = Some (Print "Generation complete!"))
  ∧ (∀ w', r = Break w' →
           strict = true ∧ last (stdout w') = Some (Print "Goodbye!")).

(** A session in which the second of three rows cannot be named. *)
Definition env_mixed : Env :=
  {| open_template := λ _, Contents "Dear {{name}}";
     open_csv := λ _, Contents [row_john; row_no_name; row_john] |}.
Definition session_mixed : list string :=
  ["1"; "letter.txt"; "2"; "people.csv"; "4"; "1"; "name"; "6"].

(** The world just before the pass that generates from [state_mixed_rows]. *)
Definition world_before_generation : world :=
  World state_mixed_rows fs_empty ["4"; "1"; "name"] [].

(** ** Placeholder list: [dict.fromkeys] keeps first occurrences *)

Lemma fromkeys_fold_elem (l keys : list string) (x : string) :
  x ∈ foldl add_key keys l ↔ x ∈ keys ∨ x ∈ l.
Proof.
  revert keys. induction l as [|k l IH]; intros keys; simpl.
  - set_solver.
  - rewrite IH. unfold add_key. case_bool_decide; set_solver.
Qed.

Lemma fromkeys_fold_NoDup (l keys : list string) :
  NoDup keys → NoDup (foldl add_key keys l).
Proof.
  revert keys. induction l as [|k l IH]; intros keys Hnd; simpl; [done|].
  apply IH. unfold add_key. case_bool_decide; [done|].
  apply NoDup_app. split_and!; [done | set_solver | apply NoDup_singleton].
Qed.

Lemma fromkeys_fold_prefix (l keys : list string) :
  ∃ t, foldl add_key keys l = keys ++ t.
Proof.
  revert keys. induction l as [|k l IH]; intros keys; simpl.
  - exists []. by rewrite app_nil_r.
  - destruct (IH (add_key keys k)) as [t ->]. unfold add_key.
    case_bool_decide; [by exists t|].
    exists (k :: t). by rewrite <- app_assoc.
Qed.

Lemma dict_fromkeys_elem (l : list string) (x : string) :
  x ∈ dict_fromkeys l ↔ x ∈ l.
Proof. unfold dict_fromkeys. rewrite (fromkeys_fold_elem l []). set_solver. Qed.

Lemma dict_fromkeys_NoDup (l : list string) : NoDup (dict_fromkeys l).
Proof. apply fromkeys_fold_NoDup, NoDup_nil_2. Qed.

Lemma dict_fromkeys_first (l1 l2 : list string) (x : string) :
  x ∉ l1 →
  ∃ t, dict_fromkeys (l1 ++ x :: l2) = dict_fromkeys l1 ++ x :: t.
Proof.
  intros Hx. unfold dict_fromkeys. rewrite foldl_app. simpl.
  fold (dict_fromkeys l1).
  destruct (fromkeys_fold_prefix l2 (add_key (dict_fromkeys l1) x)) as [t Ht].
  rewrite Ht. unfold add_key.
  rewrite bool_decide_eq_false_2 by by rewrite dict_fromkeys_elem.
  exists t. by rewrite <- app_assoc.
Qed.

(** C7.  The placeholder list that extraction installs has no duplicates,
    holds exactly the names matched in the template, and orders them by
    first occurrence: the names in front of [x] in the list are those matched
    before the first match of [x].  The template
    ["{{a}} and {{a}} and {{b}}"] gives [["a"; "b"]]. *)
Theorem extract_placeholders_dedup (st : state) :
  let matches :=
    re_findall (current_delimiters st).1 (current_delimiters st).2
               (template_content st) in
  let names := placeholders (_extract_placeholders st) in
  NoDup names
  ∧ (∀ x, x ∈ names ↔ x ∈ matches)
  ∧ (∀ l1 x l2, matches = l1 ++ x :: l2 → x ∉ l1 →
       ∃ n1 n2, names = n1 ++ x :: n2 ∧ ∀ y, y ∈ n1 ↔ y ∈ l1)
  ∧ placeholders
      (_extract_placeholders
         (set_template_content "{{a}} and {{a}} and {{b}}" __init__))
    = ["a"; "b"].
Proof.
  unfold _extract_placeholders. simpl. split_and!.
  - apply dict_fromkeys_NoDup.
  - intros x. apply dict_fromkeys_elem.
  - intros l1 x l2 -> Hx.
    destruct (dict_fromkeys_first l1 l2 x Hx) as [t Ht].
    exists (dict_fromkeys l1), t. split; [done|].
    intros y. apply dict_fromkeys_elem.
  - by vm_compute.
Qed.

(** ** Loading rows and validating headers *)

Lemma same_template_refl st : same_template st st.
Proof. by repeat split. Qed.

Lemma same_template_errors_append msg st :
  same_template st (errors_append msg st).
Proof. by repeat split. Qed.

Lemma same_template_set_csv_data rows st :
  same_template st (set_csv_data rows st).
Proof. by repeat split. Qed.

Lemma same_template_trans st1 st2 st3 :
  same_template st1 st2 → same_template st2 st3 → same_template st1 st3.
Proof. unfold same_template. intros (?&?&?&?) (?&?&?&?). split_and!; congruence. Qed.

Lemma validate_headers_cons st row rest :
  csv_data st = row :: rest →
  _validate_csv_headers st =
    if bool_decide (missing_in row st ≠ []) then
      Ok (errors_append ("CSV missing required columns: "
                         +:+ str_join ", " (missing_in row st)) st, false)
    else Ok (st, true).
Proof. unfold _validate_csv_headers. by intros ->. Qed.

(** C4.  Validation looks at the first row only.  It fails exactly when some
    placeholder is not a key of that row; it then appends one entry to the
    error log, the names that are missing joined by [", "] in placeholder
    order, and changes nothing else; when it succeeds the state is
    unchanged. *)
Theorem validate_headers_first_row (st : state) (row : Row) (rest : list Row) :
  csv_data st = row :: rest →
  ∃ st' ok missing,
    _validate_csv_headers st = Ok (st', ok)
    ∧ (∀ ph, ph ∈ missing ↔ ph ∈ placeholders st ∧ row !! ph = None)
    ∧ missing `sublist_of` placeholders st
    ∧ (ok = false ↔ ∃ ph, ph ∈ placeholders st ∧ row !! ph = None)
    ∧ (ok = true → st' = st)
    ∧ (ok = false →
         errors st' = errors st
                      ++ ["CSV missing required columns: "
                          +:+ str_join ", " missing]
         ∧ csv_data st' = csv_data st ∧ same_template st st').
Proof.
  intros Hrows. rewrite (validate_headers_cons _ _ _ Hrows).
  assert (Hmem : ∀ ph, ph ∈ missing_in row st
                       ↔ ph ∈ placeholders st ∧ row !! ph = None).
  { intros ph. unfold missing_in. rewrite list_elem_of_filter. tauto. }
  case_bool_decide as Hmiss.
  - eexists _, false, (missing_in row st). split_and!; try done.
    + apply sublist_filter.
    + split; [|done]. intros _.
      destruct (missing_in row st) as [|ph l] eqn:Hl; [done|].
      exists ph. apply Hmem. left.
  - eexists st, true, (missing_in row st). split_and!; try done.
    + apply sublist_filter.
    + split; [done|]. intros [ph Hph%Hmem].
      rewrite Hmiss in Hph. by apply elem_of_nil in Hph.
Qed.

Lemma validate_headers_first_row_witness :
  csv_data state_a_b = [row_a]
  ∧ _validate_csv_headers state_a_b
    = Ok (errors_append "CSV missing required columns: b" state_a_b, false).
Proof.
  split; [reflexivity|].
  destruct (validate_headers_first_row state_a_b row_a [] eq_refl)
    as (st' & ok & missing & Hv & _).
  rewrite Hv. vm_compute in Hv. by injection Hv as <- <-.
Defined.

(** C1, as stated, fails: a load that fails header validation has already
    replaced the rows. *)
Lemma load_csv_failure_replaces_rows :
  (load_csv_data env_csv_b "new.csv" state_loaded_a).2 = false
  ∧ csv_data state_loaded_a = [row_a]
  ∧ csv_data (load_csv_data env_csv_b "new.csv" state_loaded_a).1 = [row_b]
  ∧ csv_data (load_csv_data env_csv_b "new.csv" state_loaded_a).1
    ≠ csv_data state_loaded_a.
Proof.
  split_and!; [by vm_compute | done | by vm_compute |].
  intros Heq. vm_compute in Heq. discriminate Heq.
Qed.

(** C1, amended.  A failed [load_csv_data] leaves the template, the
    placeholder list, the output directory and the delimiters unchanged and
    appends exactly one entry to the error log.  The rows are unchanged when
    the file is not found or cannot be read; when the file was read, the
    rows are the ones just read, which are empty or lack a required
    column. *)
Theorem load_csv_failure_frame (env : Env) (path : string) (st : state) :
  (load_csv_data env path st).2 = false →
  let st' := (load_csv_data env path st).1 in
  same_template st st'
  ∧ (∃ msg, errors st' = errors st ++ [msg])
  ∧ match open_csv env path with
    | Contents rows =>
        csv_data st' = rows
        ∧ (rows = []
           ∨ ∃ row rest, rows = row :: rest
               ∧ ∃ ph, ph ∈ placeholders st ∧ row !! ph = None)
    | FileNotFound | ReadFails _ => csv_data st' = csv_data st
    end.
Proof.
  unfold load_csv_data. destruct (open_csv env path) as [|msg|rows]; simpl.
  - intros _. split_and!; [by repeat split | by eexists | done].
  - intros _. split_and!; [by repeat split | by eexists | done].
  - destruct rows as [|row rest]; simpl.
    + intros _. split_and!; [by repeat split | by eexists | done | by left].
    + rewrite (validate_headers_cons _ row rest) by done.
      case_bool_decide as Hmiss; simpl; [intros _ | done].
      split_and!; [by repeat split | by eexists | done |].
      right. exists row, rest. split; [done|].
      unfold missing_in in Hmiss. simpl in Hmiss.
      destruct (filter _ (placeholders st)) as [|ph l] eqn:Hl; [done|].
      exists ph.
      assert (ph ∈ filter (λ ph, row !! ph = None) (placeholders st))
        as [? ?]%list_elem_of_filter by (rewrite Hl; left).
      done.
Qed.

Lemma load_csv_failure_frame_witness :
  (load_csv_data env_csv_b "new.csv" state_loaded_a).2 = false
  ∧ same_template state_loaded_a
      (load_csv_data env_csv_b "new.csv" state_loaded_a).1.
Proof.
  split; [by vm_compute|].
  apply (load_csv_failure_frame env_csv_b "new.csv" state_loaded_a).
  by vm_compute.
Defined.

(** ** What the methods leave unchanged *)

Lemma same_template_load_csv_data env path st :
  same_template st (load_csv_data env path st).1.
Proof.
  unfold load_csv_data, _validate_csv_headers.
  destruct (open_csv env path) as [|msg|rows]; simpl; [by repeat split..|].
  destruct rows as [|row rest]; simpl; [by repeat split|].
  case_bool_decide; by repeat split.
Qed.

Lemma delimiters_extract_placeholders st :
  current_delimiters (_extract_placeholders st) = current_delimiters st.
Proof. reflexivity. Qed.

Lemma delimiters_load_template env path st :
  current_delimiters (load_template env path st).1 = current_delimiters st.
Proof.
  unfold load_template. destruct (open_template env path); [done..|].
  cbn [fst]. by rewrite delimiters_extract_placeholders.
Qed.

Lemma delimiters_set_delimiters start e st :
  current_delimiters (set_delimiters start e st) = (start, e).
Proof.
  unfold set_delimiters. case_bool_decide; [|done].
  by rewrite delimiters_extract_placeholders.
Qed.

Section LoopFrames.
Variable merge : state → Row → result string.

Lemma individual_loop_frame field i rows st fs n st' fs' n' :
  individual_loop merge field i rows st fs n = Some (st', fs', n') →
  same_template st st' ∧ csv_data st' = csv_data st.
Proof.
  revert i st fs n. induction rows as [|row rows IH]; intros i st fs n; simpl.
  - intros [= <- <- <-]. split; [apply same_template_refl | done].
  - destruct (write_row merge field i row st fs) as [[fs1 [[]|msg]]|];
      [| |done].
    + apply IH.
    + intros [Hsame Hrows]%IH. split; [|done].
      eapply same_template_trans; [apply same_template_errors_append | done].
Qed.

Lemma combined_loop_frame i rows st acc n st' acc' n' :
  combined_loop merge i rows st acc n = (st', acc', n') →
  same_template st st' ∧ csv_data st' = csv_data st.
Proof.
  revert i st acc n. induction rows as [|row rows IH]; intros i st acc n; simpl.
  - intros [= <- <- <-]. split; [apply same_template_refl | done].
  - destruct (merge st row) as [content|msg].
    + apply IH.
    + intros [Hsame Hrows]%IH. split; [|done].
      eapply same_template_trans; [apply same_template_errors_append | done].
Qed.

Lemma individual_with_frame field st fs st' fs' ok :
  individual_with merge field st fs = Some (st', fs', ok) →
  same_template st st' ∧ csv_data st' = csv_data st.
Proof.
  unfold individual_with.
  destruct (individual_loop merge field 0 (csv_data st) st fs 0)
    as [[[st1 fs1] n1]|] eqn:Hloop; [|done].
  intros [= <- <- <-]. by eapply individual_loop_frame.
Qed.

Lemma combined_with_frame ts st fs st' fs' ok :
  combined_with merge ts st fs = (st', fs', ok) →
  same_template st st' ∧ csv_data st' = csv_data st.
Proof.
  unfold combined_with.
  destruct (combined_loop merge 0 (csv_data st) st [] 0)
    as [[st1 acc1] n1] eqn:Hloop.
  apply combined_loop_frame in Hloop as [Hsame Hrows].
  case_bool_decide; [|by intros [= <- <- <-]].
  destruct (write_file fs _ _) as [fs1 [[]|msg]]; intros [= <- <- <-]; [done|].
  split; [|done].
  eapply same_template_trans; [done | apply same_template_errors_append].
Qed.
End LoopFrames.

Lemma generate_output_frame fmt field ts st fs st' fs' ok :
  generate_output fmt field ts st fs = Some (Ok (st', fs', ok)) →
  same_template st st' ∧ csv_data st' = csv_data st.
Proof.
  unfold generate_output, _ready_to_generate.
  case_bool_decide; [intros [= <- <- <-]; by repeat split|].
  case_bool_decide; [intros [= <- <- <-]; by repeat split|].
  destruct (makedirs_error fs (output_dir st)); [done|].
  case_bool_decide.
  - intros [= Hc]. by eapply combined_with_frame.
  - unfold _generate_individual_files.
    destruct (individual_with own_merge field st fs) as [[[st1 fs1] ok1]|]
      eqn:Hi; [|done].
    intros [= <- <- <-]. by eapply individual_with_frame.
Qed.

(** ** Delimiters *)

(** C8, as stated, fails: [set_delimiters] installs whatever it is given. *)
Lemma set_delimiters_installs_empty :
  reachable any_pair (set_delimiters "" "" __init__)
  ∧ current_delimiters (set_delimiters "" "" __init__) = ("", "").
Proof.
  split; [|reflexivity].
  apply reach_set_delimiters; [apply reach_init | exact I].
Qed.

Lemma or_default_nonempty s d : d ≠ "" → or_default s d ≠ "".
Proof. unfold or_default. by case_bool_decide. Qed.

(** C8, amended.  [set_delimiters] installs exactly the pair it is given.
    The generator starts with the markers [{{] and [}}], the menu replaces
    empty input by these defaults, and no other method changes the
    delimiters; so both markers are non-empty in every state reached by
    calls that pass non-empty markers to [set_delimiters]. *)
Theorem delimiters_nonempty_invariant (st : state) :
  reachable nonempty_pair st →
  (current_delimiters st).1 ≠ "" ∧ (current_delimiters st).2 ≠ "".
Proof.
  induction 1 as [|env path st _ IH|start e st _ _ Hne
                  |start_input end_input st _ _|env path st _ IH
                  |fmt field ts st fs st' fs' ok _ IH Hgen|st _ IH].
  - done.
  - by rewrite delimiters_load_template.
  - by rewrite delimiters_set_delimiters.
  - unfold menu_set_delimiters. rewrite delimiters_set_delimiters. simpl.
    split; by apply or_default_nonempty.
  - by destruct (same_template_load_csv_data env path st) as (_&_&_&->).
  - by destruct (generate_output_frame _ _ _ _ _ _ _ _ Hgen) as [(_&_&_&->) _].
  - done.
Qed.

Lemma delimiters_nonempty_invariant_witness :
  current_delimiters
    (set_delimiters "<<" ">>" (load_template env_no_files "t.txt" __init__).1)
  = ("<<", ">>")
  ∧ "<<" ≠ "" ∧ ">>" ≠ "".
Proof.
  split; [reflexivity|].
  apply (delimiters_nonempty_invariant
           (set_delimiters "<<" ">>"
              (load_template env_no_files "t.txt" __init__).1)).
  apply reach_set_delimiters; [|by split].
  apply reach_load_template, reach_init.
Defined.

(** ** An empty template file *)

Lemma re_findall_empty_text start e :
  (start, e) ≠ ("", "") → re_findall start e "" = [].
Proof.
  intros Hne. apply findall_from_end. unfold match_at.
  destruct start as [|a start]; [|done]. simpl.
  destruct e as [|b e]; [done|]. reflexivity.
Qed.

(** C10, as stated, fails on the placeholder list: with both markers empty
    the pattern matches the empty text once, and the list is [[""]]. *)
Lemma empty_template_placeholders_not_empty :
  open_template env_empty_template "t.txt" = Contents ""
  ∧ (load_template env_empty_template "t.txt"
       (set_delimiters "" "" __init__)).2 = true
  ∧ placeholders (load_template env_empty_template "t.txt"
                    (set_delimiters "" "" __init__)).1 = [""]
  ∧ placeholders (load_template env_empty_template "t.txt"
                    (set_delimiters "" "" __init__)).1 ≠ [].
Proof. split_and!; [done | done | by vm_compute | by vm_compute]. Qed.

(** C10, amended.  Loading a readable template file whose content is the
    empty string returns [True]; the placeholder list it sets is empty
    unless both delimiters are empty (then it is [[""]]).  A following
    [generate_output] fails with ["No template loaded"] and leaves the files
    alone, whatever rows are loaded: readiness looks at the template text,
    not at whether a load succeeded. *)
Theorem empty_template_loads_but_not_ready (env : Env) (path : string)
    (st : state) (fmt : string) (field : option string) (ts : string)
    (fs : FS) :
  open_template env path = Contents "" →
  let st1 := (load_template env path st).1 in
  (load_template env path st).2 = true
  ∧ template_content st1 = ""
  ∧ (current_delimiters st ≠ ("", "") → placeholders st1 = [])
  ∧ (current_delimiters st = ("", "") → placeholders st1 = [""])
  ∧ generate_output fmt field ts st1 fs
    = Some (Ok (errors_append "No template loaded" st1, fs, false)).
Proof.
  intros Hopen. unfold load_template. rewrite Hopen. simpl. split_and!.
  - done.
  - done.
  - intros Hne. unfold _extract_placeholders. simpl.
    rewrite re_findall_empty_text; [done|].
    by destruct (current_delimiters st).
  - intros Heq. unfold _extract_placeholders. simpl. by rewrite Heq.
  - done.
Qed.

Lemma empty_template_loads_but_not_ready_witness :
  open_template env_empty_template "t.txt" = Contents ""
  ∧ (load_template env_empty_template "t.txt" __init__).2 = true
  ∧ placeholders (load_template env_empty_template "t.txt" __init__).1 = [].
Proof.
  split; [reflexivity|].
  destruct (empty_template_loads_but_not_ready env_empty_template "t.txt"
              __init__ "separate" None "20261103_120000"
              {| files := ∅; write_error := λ _, None;
                 write_fault := λ _ _, None;
                 makedirs_error := λ _, None |} eq_refl)
    as (Hok & _ & Hph & _).
  split; [exact Hok | by apply Hph].
Defined.

(** ** File names in individual mode *)

Lemma str_replace_char (s : string) (a b : ascii) :
  str_replace s (String a "") (String b "")
  = string_map (λ c, if decide (c = a) then b else c) s.
Proof.
  unfold str_replace. induction s as [|c s IH]; simpl.
  - apply replace_from_nil.
  - destruct (decide (c = a)) as [->|Hne].
    + rewrite (replace_from_hit a "" _ _ s); [by rewrite IH|].
      simpl. by rewrite decide_True.
    + rewrite replace_from_miss; [by rewrite IH|].
      simpl. by rewrite decide_False by congruence.
Qed.

Lemma lstrip_spec (s : string) :
  ∃ l, s = l +:+ lstrip s
       ∧ string_forallb is_space l = true
       ∧ ∀ c, head_char (lstrip s) = Some c → is_space c = false.
Proof.
  induction s as [|c s (l & Hs & Hl & Hhead)]; simpl.
  - by exists "".
  - destruct (is_space c) eqn:Hc.
    + exists (String c l). simpl. rewrite Hc, Hl. by rewrite <- Hs.
    + exists "". simpl. split_and!; [done..|]. by intros ? [= <-].
Qed.

Lemma rstrip_spec (s : string) :
  ∃ r, s = rstrip s +:+ r
       ∧ string_forallb is_space r = true
       ∧ (∀ c, last_char (rstrip s) = Some c → is_space c = false)
       ∧ (∀ c, head_char (rstrip s) = Some c → head_char s = Some c).
Proof.
  induction s as [|c s (r & Hs & Hr & Hlast & Hhead)]; simpl.
  - by exists "".
  - destruct (rstrip s) as [|d t] eqn:Ht.
    + destruct (is_space c) eqn:Hc.
      * exists (String c r). simpl. rewrite Hc, Hr.
        simpl in Hs. by rewrite <- Hs.
      * exists r. simpl in *. subst r.
        split_and!; [done..| |done]. by intros ? [= <-].
    + exists r. simpl. rewrite Hs at 1. split_and!; try done.
Qed.

Lemma str_strip_spec (v : string) :
  ∃ l r, v = l +:+ str_strip v +:+ r
         ∧ string_forallb is_space l = true
         ∧ string_forallb is_space r = true
         ∧ (∀ c, head_char (str_strip v) = Some c → is_space c = false)
         ∧ (∀ c, last_char (str_strip v) = Some c → is_space c = false).
Proof.
  unfold str_strip.
  destruct (lstrip_spec v) as (l & Hv & Hl & Hhead).
  destruct (rstrip_spec (lstrip v)) as (r & Hs & Hr & Hlast & Hh).
  exists l, r. split_and!; try done.
  - by rewrite <- Hs.
  - intros c Hc. by apply Hhead, Hh.
Qed.

(** C9, as stated, fails: a tab inside the value is kept. *)
Lemma base_filename_keeps_tab :
  base_filename (Some "name") 0 row_name_tab = Ok a_tab_b
  ∧ whitespace_to_underscores a_tab_b = "a_b"
  ∧ base_filename (Some "name") 0 row_name_tab
    ≠ Ok (whitespace_to_underscores a_tab_b).
Proof. split_and!; [by vm_compute | by vm_compute | by vm_compute]. Qed.

Lemma base_filename_text (field : string) (i : nat) (row : Row) (v : string) :
  field ≠ "" → row !! field = Some (Text v) →
  base_filename (Some field) i row = Ok (spaces_to_underscores v).
Proof.
  intros Hne Hrow. unfold base_filename.
  rewrite bool_decide_eq_true_2 by done.
  rewrite Hrow. unfold spaces_to_underscores. by rewrite <- str_replace_char.
Qed.

(** C9, amended.  When a non-empty filename field is given and the row has
    text under it, the base filename is that text with leading and trailing
    whitespace removed and every space character replaced by an underscore
    (tabs and other whitespace inside are kept).  When no field is given,
    the field is empty, or the row has no such key, the base filename is
    ["document_"] followed by the 1-based row index. *)
Theorem base_filename_spaces_only (filename_field : option string) (i : nat)
    (row : Row) :
  (∀ field v,
     filename_field = Some field → field ≠ "" → row !! field = Some (Text v) →
     base_filename filename_field i row = Ok (spaces_to_underscores v)
     ∧ ∃ l r, v = l +:+ str_strip v +:+ r
         ∧ string_forallb is_space l = true
         ∧ string_forallb is_space r = true
         ∧ (∀ c, head_char (str_strip v) = Some c → is_space c = false)
         ∧ (∀ c, last_char (str_strip v) = Some c → is_space c = false))
  ∧ (filename_field = None ∨ filename_field = Some ""
     ∨ (∃ field, filename_field = Some field ∧ row !! field = None) →
     base_filename filename_field i row
     = Ok ("document_" +:+ pretty (i + 1))).
Proof.
  split.
  - intros field v -> Hne Hrow. split; [|apply str_strip_spec].
    by apply base_filename_text.
  - unfold base_filename. intros [->|[->|(field & -> & Hrow)]]; [done..|].
    rewrite Hrow. by case_bool_decide.
Qed.

Lemma base_filename_spaces_only_witness :
  base_filename (Some "name") 4 row_name_spaces = Ok "John_Smith"
  ∧ base_filename None 4 row_name_spaces = Ok "document_5".
Proof.
  destruct (base_filename_spaces_only (Some "name") 4 row_name_spaces)
    as [Hfield _].
  destruct (Hfield "name" " John Smith " eq_refl
              ltac:(done) ltac:(by vm_compute)) as [-> _].
  destruct (base_filename_spaces_only None 4 row_name_spaces) as [_ Hnone].
  rewrite Hnone by by left.
  split; by vm_compute.
Defined.

(** ** Combined mode *)

Section Combined.
Variable merge : state → Row → result string.





End Combined.


(** ** Individual mode: collision-free file names *)

Lemma string_app_inj_r (s1 s2 t : string) : s1 +:+ t = s2 +:+ t → s1 = s2.
Proof.
  revert s2. induction s1 as [|a s1 IH]; intros [|b s2] Heq; simpl in Heq.
  - done.
  - apply (f_equal String.length) in Heq. simpl in Heq.
    rewrite string_length_app in Heq. lia.
  - apply (f_equal String.length) in Heq. simpl in Heq.
    rewrite string_length_app in Heq. lia.
  - injection Heq as -> Heq. f_equal. by apply IH.
Qed.

Lemma numbered_filename_inj base : Inj (=) (=) (numbered_filename base).
Proof.
  intros [|k] [|k'] Heq; unfold numbered_filename in Heq;
    apply (inj (String.app base)) in Heq; [done | done | done |].
  injection Heq as Heq. apply string_app_inj_r in Heq.
  by apply (inj pretty) in Heq.
Qed.

Lemma numbered_filename_starts_with_sep base k :
  starts_with_sep (numbered_filename base k) = starts_with_sep base.
Proof.
  destruct base as [|c base]; [|by destruct k].
  destruct k; [done|]. reflexivity.
Qed.

Lemma candidate_path_inj dir base : Inj (=) (=) (candidate_path dir base).
Proof.
  intros k k'. unfold candidate_path, os_path_join.
  rewrite !numbered_filename_starts_with_sep.
  destruct (starts_with_sep base).
  - apply numbered_filename_inj.
  - destruct (bool_decide (dir = "") || ends_with_sep dir); intros Heq.
    + by apply (inj (String.app dir)), numbered_filename_inj in Heq.
    + apply (inj (String.app dir)) in Heq. injection Heq as Heq.
      by apply numbered_filename_inj in Heq.
Qed.

Lemma path_exists_true fs p : os_path_exists fs p = true ↔ p ∈ dom (files fs).
Proof. unfold os_path_exists. rewrite bool_decide_eq_true. by rewrite elem_of_dom. Qed.

Lemma path_exists_false fs p : os_path_exists fs p = false ↔ files fs !! p = None.
Proof.
  unfold os_path_exists. rewrite bool_decide_eq_false.
  by rewrite eq_None_not_Some.
Qed.

(** The loop, started at candidate [k], stops at the first candidate from
    [k] on that does not exist. *)
Lemma probe_step fuel fs dir base k :
  probe fuel fs dir base (candidate_path dir base k) (S k)
  = if os_path_exists fs (candidate_path dir base k) then
      match fuel with
      | 0 => None
      | S fuel' =>
          probe fuel' fs dir base (candidate_path dir base (S k)) (S (S k))
      end
    else Some (candidate_path dir base k).
Proof. by destruct fuel. Qed.

Lemma probe_Some fuel fs dir base k p :
  probe fuel fs dir base (candidate_path dir base k) (S k) = Some p →
  ∃ j, k ≤ j ∧ p = candidate_path dir base j
       ∧ files fs !! p = None
       ∧ ∀ i, k ≤ i < j → candidate_path dir base i ∈ dom (files fs).
Proof.
  revert k. induction fuel as [|fuel IH]; intros k; rewrite probe_step;
    destruct (os_path_exists fs (candidate_path dir base k)) eqn:Hex; try done.
  - intros [= <-]. exists k. apply path_exists_false in Hex.
    split_and!; [lia | done | done | lia].
  - intros (j & Hj & -> & Hfree & Hbelow)%IH. exists j.
    split_and!; [lia | done | done |].
    intros i Hi. destruct (decide (i = k)) as [->|]; [|apply Hbelow; lia].
    by apply path_exists_true.
  - intros [= <-]. exists k. apply path_exists_false in Hex.
    split_and!; [lia | done | done | lia].
Qed.

Lemma probe_None fuel fs dir base k :
  probe fuel fs dir base (candidate_path dir base k) (S k) = None →
  ∀ i, k ≤ i ≤ k + fuel → candidate_path dir base i ∈ dom (files fs).
Proof.
  revert k. induction fuel as [|fuel IH]; intros k; rewrite probe_step;
    destruct (os_path_exists fs (candidate_path dir base k)) eqn:Hex; try done.
  - intros _ i Hi. assert (i = k) as -> by lia. by apply path_exists_true.
  - intros Hnone i Hi. destruct (decide (i = k)) as [->|].
    + by apply path_exists_true.
    + apply (IH (S k)); [done | lia].
Qed.

(** The loop ends: there are more candidates than files. *)
Lemma free_output_path_total fs dir base :
  ∃ k, free_output_path fs dir base = Some (candidate_path dir base k)
       ∧ files fs !! candidate_path dir base k = None
       ∧ ∀ i, i < k → candidate_path dir base i ∈ dom (files fs).
Proof.
  unfold free_output_path.
  change (os_path_join dir (base +:+ ".txt")) with (candidate_path dir base 0).
  destruct (probe (S (size (files fs))) fs dir base
              (candidate_path dir base 0) 1) as [p|] eqn:Hp.
  - apply probe_Some in Hp as (j & _ & -> & Hfree & Hbelow).
    exists j. split_and!; [done..|]. intros i Hi. apply Hbelow. lia.
  - exfalso. pose proof (probe_None _ _ _ _ _ Hp) as Hall.
    set (l := candidate_path dir base <$> seq 0 (S (S (size (files fs))))).
    assert (Hnd : NoDup l).
    { apply NoDup_fmap_2_strong; [|apply NoDup_seq].
      intros i j _ _. apply candidate_path_inj. }
    assert (Hsub : list_to_set (C := gset string) l ⊆ dom (files fs)).
    { intros p [i [-> Hi]]%elem_of_list_to_set%list_elem_of_fmap.
      apply elem_of_seq in Hi. apply Hall. lia. }
    apply subseteq_size in Hsub.
    rewrite size_list_to_set, size_dom in Hsub by done.
    unfold l in Hsub. rewrite length_fmap, length_seq in Hsub. lia.
Qed.

Lemma with_file_fresh fs p content :
  files fs !! p = None → keeps_files fs (with_file fs p content).
Proof.
  intros Hfree q c Hq. simpl. rewrite lookup_insert_ne; [done|]. congruence.
Qed.

Lemma first_unused_total fs dir base :
  ∃ p, free_output_path fs dir base = Some p ∧ first_unused fs dir base p.
Proof.
  destruct (free_output_path_total fs dir base) as (k & Hk & Hfree & Hbelow).
  eexists. split; [done|]. exists k. split_and!; [done..|].
  intros i Hi. by apply elem_of_dom, Hbelow.
Qed.

(** Only one path is the first unused one. *)
Lemma first_unused_unique fs dir base p q :
  first_unused fs dir base p → first_unused fs dir base q → p = q.
Proof.
  intros (k & -> & Hk & Hbelow) (j & -> & Hj & Hbelow').
  destruct (Nat.lt_trichotomy k j) as [Hlt|[->|Hlt]]; [|done|].
  - destruct (Hbelow' k Hlt) as [c Hc]. congruence.
  - destruct (Hbelow j Hlt) as [c Hc]. congruence.
Qed.

Section Individual.
Variable merge : state → Row → result string.

(** The body of [try] always ends, and does what [RowHandled] tells. *)
Lemma write_row_handled field i row st fs :
  ∃ fs1 r, write_row merge field i row st fs = Some (fs1, r)
           ∧ RowHandled merge field st i row fs fs1 r.
Proof.
  unfold write_row. destruct (merge st row) as [content|msg] eqn:Hm.
  2:{ eexists _, _. split; [done|]. by apply handled_merge_raises. }
  destruct (base_filename field i row) as [base|msg] eqn:Hb.
  2:{ eexists _, _. split; [done|]. by eapply handled_name_raises. }
  destruct (first_unused_total fs (output_dir st) base) as (p & -> & Hp).
  unfold write_file.
  destruct (write_error fs p) as [msg|] eqn:Hw.
  { eexists _, _. split; [done|]. by eapply handled_open_raises. }
  destruct (write_fault fs p content) as [[msg rest]|] eqn:Hf.
  - eexists _, _. split; [done|]. by eapply handled_write_raises.
  - eexists _, _. split; [done|]. by eapply handled_written.
Qed.

(** A row adds at most one file, at a path that did not exist. *)
Lemma RowHandled_keeps_files field st i row fs fs1 r :
  RowHandled merge field st i row fs fs1 r →
  keeps_files fs fs1
  ∧ (∀ q, files fs1 !! q = None → files fs !! q = None)
  ∧ write_error fs1 = write_error fs
  ∧ write_fault fs1 = write_fault fs.
Proof.
  intros Hh.
  destruct Hh as [msg Hm|content msg Hm Hb|content base p msg Hm Hb Hp Hw
                 |content base p msg rest Hm Hb Hp Hw Hf
                 |content base p Hm Hb Hp Hw Hf];
    try (split_and!; [by intros ?? | done..]);
    destruct Hp as (k & _ & Hfree & _);
    (split_and!; [by apply with_file_fresh | | done | done]);
    intros q Hq; simpl in Hq; by apply lookup_insert_None in Hq as [? ?].
Qed.

Lemma individual_loop_keeps_files field i rows st fs n :
  ∃ st' fs' n', individual_loop merge field i rows st fs n = Some (st', fs', n')
                ∧ keeps_files fs fs'.
Proof.
  revert i st fs n. induction rows as [|row rows IH]; intros i st fs n; simpl.
  - exists st, fs, n. split; [done | by intros ??].
  - destruct (write_row_handled field i row st fs)
      as (fs1 & r & -> & [Hk _]%RowHandled_keeps_files).
    destruct r as [[]|msg].
    + destruct (IH (S i) st fs1 (S n)) as (st' & fs' & n' & -> & Hk').
      exists st', fs', n'. split; [done|]. intros p c Hp. by apply Hk', Hk.
    + destruct (IH (S i) (errors_append (row_error i msg) st) fs1 n)
        as (st' & fs' & n' & -> & Hk').
      exists st', fs', n'. split; [done|]. intros p c Hp. by apply Hk', Hk.
Qed.

Lemma individual_with_keeps_files field st fs :
  ∃ st' fs' ok, individual_with merge field st fs = Some (st', fs', ok)
                ∧ keeps_files fs fs'.
Proof.
  unfold individual_with.
  destruct (individual_loop_keeps_files field 0 (csv_data st) st fs 0)
    as (st' & fs' & n' & -> & Hk).
  by eexists _, _, _.
Qed.

(** The loop over [pre ++ post] is the loop over [pre] followed by the loop
    over [post]. *)
Lemma individual_loop_app field i pre post st fs n :
  individual_loop merge field i (pre ++ post) st fs n
  = match individual_loop merge field i pre st fs n with
    | Some (st1, fs1, n1) =>
        individual_loop merge field (i + length pre) post st1 fs1 n1
    | None => None
    end.
Proof.
  revert i st fs n. induction pre as [|row pre IH]; intros i st fs n; simpl.
  - by rewrite Nat.add_0_r.
  - destruct (write_row merge field i row st fs) as [[fs1 [[]|msg]]|];
      [| |done]; rewrite IH;
      by replace (S i + length pre) with (i + S (length pre)) by lia.
Qed.

(** Every row is handled in the directory as the rows before it left it,
    and what it and the rows before it wrote stays. *)
Lemma individual_loop_turn field pre row post st fs st' fs' n' :
  individual_loop merge field 0 (pre ++ row :: post) st fs 0
  = Some (st', fs', n') →
  ∃ st1 fs1 n1 fs2 r,
    individual_loop merge field 0 pre st fs 0 = Some (st1, fs1, n1)
    ∧ RowHandled merge field st1 (length pre) row fs1 fs2 r
    ∧ individual_loop merge field 0 (pre ++ [row]) st fs 0
      = Some ((after_row (length pre) r st1 n1).1, fs2,
              (after_row (length pre) r st1 n1).2)
    ∧ keeps_files fs fs1 ∧ keeps_files fs2 fs'.
Proof.
  rewrite !individual_loop_app.
  destruct (individual_loop_keeps_files field 0 pre st fs 0)
    as (st1 & fs1 & n1 & -> & Hk1).
  cbn [individual_loop Nat.add].
  destruct (write_row_handled field (length pre) row st1 fs1)
    as (fs2 & r & -> & Hh).
  intros Hpost. exists st1, fs1, n1, fs2, r.
  split_and!; [done | done | by destruct r as [[]|msg] | done |].
  destruct r as [[]|msg].
  - destruct (individual_loop_keeps_files field (S (length pre)) post st1 fs2
                (S n1)) as (st2 & fs3 & n3 & Heq & Hk).
    rewrite Heq in Hpost. by injection Hpost as <- <- <-.
  - destruct (individual_loop_keeps_files field (S (length pre)) post
                (errors_append (row_error (length pre) msg) st1) fs2 n1)
      as (st2 & fs3 & n3 & Heq & Hk).
    rewrite Heq in Hpost. by injection Hpost as <- <- <-.
Qed.
End Individual.

(** The files written by a run: every row that did not fail has a file of
    its own at the end, at a path that did not exist before the run. *)
Lemma individual_loop_written field i rows st fs n st' fs' n' :
  individual_loop own_merge field i rows st fs n = Some (st', fs', n') →
  ∃ written : list (nat * string),
    n' = n + length written
    ∧ length (errors st') + length written
      = length (errors st) + length rows
    ∧ Forall (λ j, i ≤ j) written.*1
    ∧ StronglySorted lt written.*1
    ∧ NoDup written.*2
    ∧ ∀ j p, (j, p) ∈ written →
        files fs !! p = None
        ∧ ∃ row base k,
            rows !! (j - i) = Some row
            ∧ base_filename field j row = Ok base
            ∧ p = candidate_path (output_dir st) base k
            ∧ (∀ m, m < k →
                 is_Some (files fs' !! candidate_path (output_dir st) base m))
            ∧ files fs' !! p = Some (_merge_template st row).
Proof.
  revert i st fs n. induction rows as [|row rows IH]; intros i st fs n; simpl.
  - intros [= <- <- <-]. exists []. simpl.
    split_and!; [lia | lia | constructor | constructor | constructor |].
    intros j p Hin. by apply elem_of_nil in Hin.
  - destruct (write_row_handled own_merge field i row st fs)
      as (fs1 & r & -> & Hh).
    pose proof (RowHandled_keeps_files _ _ _ _ _ _ _ _ Hh)
      as (Hk & Hnone & _ & _).
    destruct r as [[]|msg].
    + intros Hloop.
      destruct (individual_loop_keeps_files own_merge field (S i) rows st fs1
                  (S n)) as (st2 & fs2 & n2 & Heq & Hk').
      rewrite Heq in Hloop. injection Hloop as -> -> ->.
      apply IH in Heq
        as (written & Hn & Hlen & Hge & Hsorted & Hnd & Hall).
      inversion Hh as [| | | |content base p Hm Hb Hp Hw Hf Hfs1].
      injection Hm as <-. destruct Hp as (k & Hpk & Hfree & Hbelow).
      assert (Hp1 : files fs1 !! p = Some (_merge_template st row)).
      { rewrite <- Hfs1. simpl. apply lookup_insert_eq. }
      exists ((i, p) :: written). simpl. split_and!.
      * lia.
      * lia.
      * constructor; [lia|]. eapply Forall_impl; [exact Hge|]. simpl. lia.
      * constructor; [done|]. eapply Forall_impl; [exact Hge|]. simpl. lia.
      * constructor; [|done].
        intros [[j q] [Heq' Hin]]%list_elem_of_fmap. simpl in Heq'. subst q.
        destruct (Hall j p Hin) as [Hnone' _]. congruence.
      * intros j q [[= -> ->]|Hin]%elem_of_cons.
        -- split; [done|]. exists row, base, k. rewrite Nat.sub_diag.
           split_and!; [done | done | done | | by apply Hk'].
           intros m Hm. destruct (Hbelow m Hm) as [c Hc].
           exists c. by apply Hk', Hk.
        -- destruct (Hall j q Hin)
             as (Hq & row' & base' & k' & Hrow & Hb' & Hq' & Hbelow' & Hfs').
           split; [by apply Hnone|]. exists row', base', k'.
           split_and!; [|done..].
           assert (S i ≤ j) as Hj.
           { eapply (proj1 (Forall_forall _ _) Hge).
             apply list_elem_of_fmap. by exists (j, q). }
           by replace (j - i) with (S (j - S i)) by lia.
    + intros (written & Hn & Hlen & Hge & Hsorted & Hnd & Hall)%IH.
      exists written. split_and!.
      * done.
      * simpl in Hlen. rewrite length_app in Hlen. simpl in Hlen. lia.
      * eapply Forall_impl; [exact Hge|]. simpl. lia.
      * done.
      * done.
      * intros j q Hin.
        destruct (Hall j q Hin)
          as (Hq & row' & base' & k' & Hrow & Hb' & Hq' & Hbelow' & Hfs').
        split; [by apply Hnone|]. exists row', base', k'.
        split_and!; [|done..].
        assert (S i ≤ j) as Hj.
        { eapply (proj1 (Forall_forall _ _) Hge).
          apply list_elem_of_fmap. by exists (j, q). }
        by replace (j - i) with (S (j - S i)) by lia.
Qed.

Lemma free_output_path_first fs dir base :
  files fs !! candidate_path dir base 0 = None →
  free_output_path fs dir base = Some (candidate_path dir base 0).
Proof.
  intros Hfree.
  destruct (free_output_path_total fs dir base) as (k & -> & _ & Hbelow).
  destruct k as [|k]; [done|].
  specialize (Hbelow 0 ltac:(lia)). apply elem_of_dom in Hbelow as [c Hc].
  congruence.
Qed.

Lemma free_output_path_second fs dir base :
  is_Some (files fs !! candidate_path dir base 0) →
  files fs !! candidate_path dir base 1 = None →
  free_output_path fs dir base = Some (candidate_path dir base 1).
Proof.
  intros [c Hc] Hfree.
  destruct (free_output_path_total fs dir base) as (k & -> & Hk & Hbelow).
  destruct k as [|[|k]]; [congruence | done |].
  specialize (Hbelow 1 ltac:(lia)). apply elem_of_dom in Hbelow as [c' Hc'].
  congruence.
Qed.

Lemma write_row_text f i row v st fs k :
  f ≠ "" → row !! f = Some (Text v) →
  let p := candidate_path (output_dir st) (spaces_to_underscores v) k in
  free_output_path fs (output_dir st) (spaces_to_underscores v) = Some p →
  write_error fs p = None →
  write_fault fs p (_merge_template st row) = None →
  write_row own_merge (Some f) i row st fs
  = Some (with_file fs p (_merge_template st row), Ok tt).
Proof.
  intros Hne Hrow p Hp Hw Hf.
  unfold write_row, own_merge. rewrite (base_filename_text f i row v) by done.
  rewrite Hp. unfold write_file. by rewrite Hw, Hf.
Qed.

Lemma generate_one_row field f row v st fs k :
  csv_data st = [row] → field = Some f → f ≠ "" →
  row !! f = Some (Text v) →
  let p := candidate_path (output_dir st) (spaces_to_underscores v) k in
  free_output_path fs (output_dir st) (spaces_to_underscores v) = Some p →
  write_error fs p = None →
  write_fault fs p (_merge_template st row) = None →
  _generate_individual_files field st fs
  = Some (st, with_file fs p (_merge_template st row), true).
Proof.
  intros Hrows -> Hne Hrow p Hp Hw Hf.
  unfold _generate_individual_files, individual_with. rewrite Hrows.
  cbn [individual_loop].
  by rewrite (write_row_text f 0 row v st fs k).
Qed.

Lemma generate_two_rows field f row1 row2 v1 v2 st fs :
  csv_data st = [row1; row2] → field = Some f → f ≠ "" →
  row1 !! f = Some (Text v1) → row2 !! f = Some (Text v2) →
  spaces_to_underscores v2 = spaces_to_underscores v1 →
  let p0 := candidate_path (output_dir st) (spaces_to_underscores v1) 0 in
  let p1 := candidate_path (output_dir st) (spaces_to_underscores v1) 1 in
  files fs !! p0 = None → files fs !! p1 = None →
  write_error fs p0 = None → write_error fs p1 = None →
  write_fault fs p0 (_merge_template st row1) = None →
  write_fault fs p1 (_merge_template st row2) = None →
  _generate_individual_files field st fs
  = Some (st, with_file (with_file fs p0 (_merge_template st row1))
                        p1 (_merge_template st row2), true).
Proof.
  intros Hrows -> Hne Hrow1 Hrow2 Hname p0 p1 Hp0 Hp1 Hw0 Hw1 Hf0 Hf1.
  unfold _generate_individual_files, individual_with. rewrite Hrows.
  cbn [individual_loop].
  rewrite (write_row_text f 0 row1 v1 st fs 0);
    [|done|done|by apply free_output_path_first|done|done].
  rewrite (write_row_text f 1 row2 v2 st _ 1);
    [by rewrite Hname|done|done| | |].
  - rewrite Hname. apply free_output_path_second; simpl.
    + rewrite lookup_insert_eq. by eexists.
    + rewrite lookup_insert_ne; [done|].
      intros Heq. by apply candidate_path_inj in Heq.
  - by rewrite Hname.
  - by rewrite Hname.
Qed.

(** C3.  In individual mode the generation always ends, and every file that
    existed before is still there with its content.  Each row is handled in
    the directory as the rows before it left it: its file goes to the first
    of [base.txt], [base_1.txt], [base_2.txt], ... that does not exist at
    that moment, and what the row and the rows before it wrote is still
    there at the end.  So at the end there are as many written rows as there
    are rows without a new entry in the error log, and every written row has
    a file of its own with its merged text, at a path that did not exist
    before the run and whose lower-numbered candidates all exist; no two
    rows share a path.  The path chosen for a base name is the first
    candidate that does not exist.  Generating twice for one row whose
    filename field gives [name] writes [name.txt] and then [name_1.txt]; so
    does generating once for two rows that both give [name]. *)
Theorem individual_files_never_overwrite (filename_field : option string)
    (st : state) (fs : FS) :
  (∃ st' fs' ok,
     _generate_individual_files filename_field st fs = Some (st', fs', ok)
     ∧ (∀ p c, files fs !! p = Some c → files fs' !! p = Some c)
     ∧ (∀ pre row post, csv_data st = pre ++ row :: post →
          ∃ st1 fs1 n1 fs2 r,
            individual_loop own_merge filename_field 0 pre st fs 0
            = Some (st1, fs1, n1)
            ∧ RowHandled own_merge filename_field st1 (length pre) row
                         fs1 fs2 r
            ∧ individual_loop own_merge filename_field 0 (pre ++ [row]) st fs 0
              = Some ((after_row (length pre) r st1 n1).1, fs2,
                      (after_row (length pre) r st1 n1).2)
            ∧ keeps_files fs fs1 ∧ keeps_files fs2 fs')
     ∧ ∃ written : list (nat * string),
         (ok = true ↔ written ≠ [])
         ∧ length (errors st') + length written
           = length (errors st) + length (csv_data st)
         ∧ StronglySorted lt written.*1
         ∧ NoDup written.*2
         ∧ ∀ i p, (i, p) ∈ written →
             files fs !! p = None
             ∧ ∃ row base k,
                 csv_data st !! i = Some row
                 ∧ base_filename filename_field i row = Ok base
                 ∧ p = candidate_path (output_dir st) base k
                 ∧ (∀ m, m < k →
                      is_Some (files fs'
                               !! candidate_path (output_dir st) base m))
                 ∧ files fs' !! p = Some (_merge_template st row))
  ∧ (∀ base, ∃ k,
       free_output_path fs (output_dir st) base
       = Some (candidate_path (output_dir st) base k)
       ∧ files fs !! candidate_path (output_dir st) base k = None
       ∧ ∀ i, i < k →
           is_Some (files fs !! candidate_path (output_dir st) base i))
  ∧ (∀ row field v,
       csv_data st = [row] → filename_field = Some field → field ≠ "" →
       row !! field = Some (Text v) →
       let name := spaces_to_underscores v in
       let p0 := os_path_join (output_dir st) (name +:+ ".txt") in
       let p1 := os_path_join (output_dir st) (name +:+ "_1.txt") in
       files fs !! p0 = None → files fs !! p1 = None →
       write_error fs p0 = None → write_error fs p1 = None →
       write_fault fs p0 (_merge_template st row) = None →
       write_fault fs p1 (_merge_template st row) = None →
       ∃ fs1 fs2,
         _generate_individual_files filename_field st fs = Some (st, fs1, true)
         ∧ _generate_individual_files filename_field st fs1
           = Some (st, fs2, true)
         ∧ files fs1 = <[p0 := _merge_template st row]> (files fs)
         ∧ files fs2 = <[p1 := _merge_template st row]> (files fs1)
         ∧ p0 ≠ p1)
  ∧ (∀ row1 row2 field v1 v2,
       csv_data st = [row1; row2] → filename_field = Some field →
       field ≠ "" →
       row1 !! field = Some (Text v1) → row2 !! field = Some (Text v2) →
       spaces_to_underscores v2 = spaces_to_underscores v1 →
       let name := spaces_to_underscores v1 in
       let p0 := os_path_join (output_dir st) (name +:+ ".txt") in
       let p1 := os_path_join (output_dir st) (name +:+ "_1.txt") in
       files fs !! p0 = None → files fs !! p1 = None →
       write_error fs p0 = None → write_error fs p1 = None →
       write_fault fs p0 (_merge_template st row1) = None →
       write_fault fs p1 (_merge_template st row2) = None →
       ∃ fs',
         _generate_individual_files filename_field st fs = Some (st, fs', true)
         ∧ files fs' = <[p1 := _merge_template st row2]>
                         (<[p0 := _merge_template st row1]> (files fs))
         ∧ p0 ≠ p1).
Proof.
  split_and!.
  - unfold _generate_individual_files, individual_with.
    destruct (individual_loop_keeps_files own_merge filename_field 0
                (csv_data st) st fs 0) as (st' & fs' & n' & Hloop & Hk).
    rewrite Hloop. exists st', fs', (bool_decide (0 < n')).
    split_and!; [done | done | |].
    + intros pre row post Hrows. rewrite Hrows in Hloop.
      by apply individual_loop_turn in Hloop.
    + apply individual_loop_written in Hloop
        as (written & Hn & Hlen & _ & Hsorted & Hnd & Hall).
      exists written. split; [|split_and!; [done..|]].
      * rewrite bool_decide_eq_true. subst n'.
        destruct written; simpl; [|split; [done | lia]].
        split; [lia | done].
      * intros i p Hin. destruct (Hall i p Hin) as [Hfree Hrow].
        split; [done|]. by rewrite Nat.sub_0_r in Hrow.
  - intros base.
    destruct (free_output_path_total fs (output_dir st) base)
      as (k & Hk & Hfree & Hbelow).
    exists k. split_and!; [done..|]. intros i Hi. by apply elem_of_dom, Hbelow.
  - intros row field v Hrows Hfield Hne Hrow name p0 p1 Hp0 Hp1 Hw0 Hw1
      Hf0 Hf1.
    change p0 with (candidate_path (output_dir st) name 0) in *.
    change p1 with (candidate_path (output_dir st) name 1) in *.
    assert (Hdiff : candidate_path (output_dir st) name 0
                    ≠ candidate_path (output_dir st) name 1).
    { intros Heq. by apply candidate_path_inj in Heq. }
    eexists _, _. split_and!.
    + eapply (generate_one_row _ _ _ _ _ _ 0); try done.
      by apply free_output_path_first.
    + eapply (generate_one_row _ _ _ _ _ _ 1);
        [done | done | done | done | | done | done].
      apply free_output_path_second; simpl.
      * rewrite lookup_insert_eq. by eexists.
      * by rewrite lookup_insert_ne.
    + done.
    + done.
    + done.
  - intros row1 row2 field v1 v2 Hrows Hfield Hne Hrow1 Hrow2 Hname name p0 p1
      Hp0 Hp1 Hw0 Hw1 Hf0 Hf1.
    change p0 with (candidate_path (output_dir st) name 0) in *.
    change p1 with (candidate_path (output_dir st) name 1) in *.
    eexists. split_and!.
    + by eapply generate_two_rows.
    + done.
    + intros Heq. by apply candidate_path_inj in Heq.
Qed.

Lemma individual_files_twice_example :
  (∃ fs1 fs2,
     _generate_individual_files (Some "name") state_one_row fs_empty
     = Some (state_one_row, fs1, true)
     ∧ _generate_individual_files (Some "name") state_one_row fs1
       = Some (state_one_row, fs2, true)
     ∧ files fs2 !! "output/John_Smith.txt" = Some "Dear John Smith"
     ∧ files fs2 !! "output/John_Smith_1.txt" = Some "Dear John Smith")
  ∧ (∃ fs',
       _generate_individual_files (Some "name") state_orders fs_empty
       = Some (state_orders, fs', true)
       ∧ files fs' !! "output/Ann_Lee.txt" = Some "Dear Ann Lee, order 7"
       ∧ files fs' !! "output/Ann_Lee_1.txt" = Some "Dear Ann Lee, order 8").
Proof.
  split.
  - destruct (individual_files_never_overwrite (Some "name") state_one_row
                fs_empty) as (_ & _ & Htwice & _).
    destruct (Htwice row_john "name" "John Smith" eq_refl eq_refl
                ltac:(done) ltac:(by vm_compute) ltac:(by vm_compute)
                ltac:(by vm_compute) eq_refl eq_refl eq_refl eq_refl)
      as (fs1 & fs2 & H1 & H2 & Hf1 & Hf2 & _).
    exists fs1, fs2. split_and!; [done | done | |].
    + rewrite Hf2, Hf1. by vm_compute.
    + rewrite Hf2, Hf1. by vm_compute.
  - destruct (individual_files_never_overwrite (Some "name") state_orders
                fs_empty) as (_ & _ & _ & Hpair).
    destruct (Hpair row_ann_7 row_ann_8 "name" "Ann Lee" "Ann Lee"
                ltac:(by vm_compute) eq_refl
                ltac:(done) ltac:(by vm_compute) ltac:(by vm_compute)
                eq_refl ltac:(by vm_compute) ltac:(by vm_compute)
                eq_refl eq_refl eq_refl eq_refl)
      as (fs' & Hgen & Hfs & _).
    exists fs'. split_and!; [done | |].
    + rewrite Hfs. by vm_compute.
    + rewrite Hfs. by vm_compute.
Defined.

(** ** Merge *)

Lemma replaced_hit old new r t :
  old ≠ "" → ReplacedAll old new r t →
  ReplacedAll old new (old +:+ r) (new +:+ t).
Proof.
  intros Hne Hr. apply (replaced_first old new "" r t); [done| |done].
  intros p' r'' _. simpl. lia.
Qed.

Lemma replaced_skip old new c s t :
  old ≠ "" → strip_prefix old (String c s) = None →
  ReplacedAll old new s t →
  ReplacedAll old new (String c s) (String c t).
Proof.
  intros Hne Hp Hs.
  assert (Hhead : ∀ r, String c s ≠ old +:+ r).
  { intros r Hr. apply strip_prefix_Some in Hr. congruence. }
  destruct Hs as [s _ Hno|p r r' _ Hfirst Hrest|Hold|c' s t Hold _]; try done.
  - apply replaced_none; [done|].
    intros [|c' p] r Hr; [by apply (Hhead r)|].
    injection Hr as -> Hr. by apply (Hno p r).
  - apply (replaced_first old new (String c p) r r'); [done| |done].
    intros [|c' p'] r'' Hr; [by destruct (Hhead r'')|].
    injection Hr as -> Hr. apply Hfirst in Hr. simpl. lia.
Qed.

Lemma replace_from_spec a old' new s :
  ReplacedAll (String a old') new s (replace_from a old' new s).
Proof.
  funelim (replace_from a old' new s).
  - apply replaced_none; [done|]. intros [|??] ??; discriminate.
  - pose proof (proj1 (strip_prefix_Some _ _ _) Hp) as Hs. rewrite Hs.
    by apply replaced_hit.
  - by apply replaced_skip.
Qed.

Lemma interleave_spec new s : ReplacedAll "" new s (interleave new s).
Proof.
  induction s as [|c s IH]; simpl.
  - rewrite string_app_nil_r. by apply replaced_empty_end.
  - by apply replaced_empty_char.
Qed.

Lemma str_replace_spec s old new :
  ReplacedAll old new s (str_replace s old new).
Proof.
  destruct old as [|a old']; [apply interleave_spec | apply replace_from_spec].
Qed.

Lemma replace_from_no_occurrence a old' new s :
  (∀ p r, s ≠ p +:+ String a old' +:+ r) → replace_from a old' new s = s.
Proof.
  induction s as [|c s IH]; intros Hno; [apply replace_from_nil|].
  rewrite replace_from_miss.
  - f_equal. apply IH. intros p r ->. by apply (Hno (String c p) r).
  - destruct (strip_prefix (String a old') (String c s)) as [r|] eqn:Hp; [|done].
    apply strip_prefix_Some in Hp. by destruct (Hno "" r).
Qed.

Lemma replace_from_first a old' new p r :
  (∀ p' r', p +:+ String a old' +:+ r = p' +:+ String a old' +:+ r' →
            String.length p ≤ String.length p') →
  replace_from a old' new (p +:+ String a old' +:+ r)
  = p +:+ new +:+ replace_from a old' new r.
Proof.
  induction p as [|c p IH]; intros Hfirst.
  - apply replace_from_hit, (strip_prefix_app (String a old')).
  - change (String c p +:+ String a old' +:+ r)
      with (String c (p +:+ String a old' +:+ r)).
    rewrite replace_from_miss.
    + change (String c p +:+ new +:+ replace_from a old' new r)
        with (String c (p +:+ new +:+ replace_from a old' new r)).
      f_equal. apply IH. intros p' r' Heq.
      pose proof (Hfirst (String c p') r' (f_equal (String c) Heq)) as Hle.
      simpl in Hle. lia.
    + destruct (strip_prefix (String a old')
                  (String c (p +:+ String a old' +:+ r))) as [r'|] eqn:Hp;
        [|done].
      apply strip_prefix_Some in Hp. specialize (Hfirst "" r' Hp).
      simpl in Hfirst. lia.
Qed.

Lemma str_replace_unique s old new t :
  ReplacedAll old new s t → t = str_replace s old new.
Proof.
  induction 1 as [s Hne Hno|p r r' Hne Hfirst _ IH|Hold|c s t Hold _ IH].
  - destruct old as [|a old']; [done|]. unfold str_replace.
    by rewrite replace_from_no_occurrence.
  - destruct old as [|a old']; [done|]. unfold str_replace in *.
    rewrite replace_from_first by done. by rewrite IH.
  - subst old. simpl. by rewrite string_app_nil_r.
  - subst old. simpl. by rewrite IH.
Qed.

Lemma merge_template_fold st row :
  _merge_template st row
  = foldl (merge_step (current_delimiters st).1 (current_delimiters st).2 row)
          (template_content st) (placeholders st).
Proof.
  unfold _merge_template. generalize (template_content st).
  induction (placeholders st) as [|name names IH]; intros s; simpl; [done|].
  rewrite IH. unfold merge_step, value_for. by destruct (row !! name).
Qed.

Lemma merged_from_fold start e row names s :
  MergedFrom start e row names s (foldl (merge_step start e row) s names).
Proof.
  revert s. induction names as [|name names IH]; intros s; simpl.
  - apply merged_nil.
  - eapply merged_cons; [apply str_replace_spec | apply IH].
Qed.

Lemma merged_from_unique start e row names s t :
  MergedFrom start e row names s t → t = foldl (merge_step start e row) s names.
Proof.
  induction 1 as [s|name names s s' t Hrep _ IH]; simpl; [done|].
  apply str_replace_unique in Hrep. unfold merge_step at 2. by rewrite <- Hrep.
Qed.

(** C5.  The merged text of a row is the template after one pass per
    placeholder name, in list order; the pass for a name replaces every
    occurrence of [start + name + end] in the text so far, from left to right,
    by the row's value for the name, and by [name_NOT_FOUND] when the row has
    no such key.  This determines the merged text.  A row without key [x]
    turns ["Hi {{x}}!"] into ["Hi x_NOT_FOUND!"]. *)
Theorem merge_template_replaces_placeholders (st : state) (row : Row) :
  let start := (current_delimiters st).1 in
  let e := (current_delimiters st).2 in
  MergedFrom start e row (placeholders st) (template_content st)
             (_merge_template st row)
  ∧ (∀ t, MergedFrom start e row (placeholders st) (template_content st) t →
          t = _merge_template st row)
  ∧ (∀ name, row !! name = None → value_for row name = name +:+ "_NOT_FOUND")
  ∧ (∀ name v, row !! name = Some (Text v) → value_for row name = v)
  ∧ placeholders state_hi_x = ["x"]
  ∧ _merge_template state_hi_x ∅ = "Hi x_NOT_FOUND!".
Proof.
  simpl. rewrite merge_template_fold. split_and!.
  - apply merged_from_fold.
  - apply merged_from_unique.
  - intros name Hrow. unfold value_for. by rewrite Hrow.
  - intros name v Hrow. unfold value_for. by rewrite Hrow.
  - by vm_compute.
  - by vm_compute.
Qed.

(** ** Placeholder extraction: what the pattern finds *)

Section LazyGroup.
Variables start e : string.

(** [lazy_group] finds the shortest group, and fails only when there is
    none. *)
Lemma lazy_group_Some adv s g r :
  lazy_group e adv s = Some (g, r) →
  lazy_match "" e adv s g r.
Proof.
  revert adv g r. induction s as [|c s IH]; intros adv g r; simpl.
  - destruct (adv && bool_decide (e = "")) eqn:Hadv; [done|].
    destruct (strip_prefix e "") as [r'|] eqn:He; [|done].
    intros [= <- <-]. apply strip_prefix_Some in He.
    split; [|simpl; lia]. split_and!; [done..|].
    intros ->. simpl in *. by apply bool_decide_eq_false in Hadv.
  - destruct (if adv && bool_decide (e = "") then None
              else strip_prefix e (String c s)) as [r'|] eqn:He.
    + intros [= <- <-].
      destruct (adv && bool_decide (e = "")) eqn:Hadv; [done|].
      apply strip_prefix_Some in He.
      split; [|simpl; lia]. split_and!; [done..|].
      intros ->. simpl in *. by apply bool_decide_eq_false in Hadv.
    + destruct (decide (c = newline)) as [->|Hc]; [done|].
      destruct (lazy_group e false s) as [[g0 r0]|] eqn:Hg; [|done].
      intros [= <- <-]. apply IH in Hg as [(Hs & Hnl & _) Hmin].
      simpl in Hs. split.
      * split_and!; [simpl; by rewrite Hs | | done].
        simpl. by rewrite bool_decide_eq_false_2.
      * intros g' r' (Hs' & Hnl' & Hadv'). simpl in Hs'.
        destruct g' as [|c' g'].
        { exfalso. simpl in Hs'.
          destruct (adv && bool_decide (e = "")) eqn:Hadv.
          - apply andb_true_iff in Hadv as [-> He'%bool_decide_eq_true].
            subst e. by apply Hadv'.
          - apply strip_prefix_Some in Hs'. congruence. }
        simpl in Hs'. injection Hs' as <- Hs'. simpl in Hnl'.
        apply orb_false_iff in Hnl' as [_ Hnl'].
        specialize (Hmin g' r'). simpl. apply le_n_S, Hmin.
        split_and!; [done..|]. done.
Qed.

Lemma lazy_group_None adv s g r :
  lazy_group e adv s = None → ¬ head_match "" e adv s g r.
Proof.
  revert adv g r. induction s as [|c s IH]; intros adv g r; simpl.
  - destruct (adv && bool_decide (e = "")) eqn:Hadv.
    + intros _ (Hs & _ & Hne). simpl in Hs.
      apply andb_true_iff in Hadv as [-> He'%bool_decide_eq_true]. subst e.
      destruct g; [|done]. by apply Hne.
    + destruct (strip_prefix e "") as [r'|] eqn:He; [done|].
      intros _ (Hs & _ & _). simpl in Hs. destruct g; [|done].
      simpl in Hs. apply strip_prefix_Some in Hs. congruence.
  - destruct (if adv && bool_decide (e = "") then None
              else strip_prefix e (String c s)) as [r'|] eqn:He; [done|].
    intros Hnone (Hs & Hnl & Hne). simpl in Hs.
    destruct g as [|c' g].
    + simpl in Hs. destruct (adv && bool_decide (e = "")) eqn:Hadv.
      * apply andb_true_iff in Hadv as [-> He'%bool_decide_eq_true]. subst e.
        by apply Hne.
      * apply strip_prefix_Some in Hs. congruence.
    + simpl in Hs. injection Hs as <- Hs. simpl in Hnl.
      apply orb_false_iff in Hnl as [Hc%bool_decide_eq_false Hnl].
      rewrite decide_False in Hnone by done.
      destruct (lazy_group e false s) as [[g0 r0]|] eqn:Hg; [done|].
      by apply (IH false g r).
Qed.

Lemma head_match_strip adv s g r :
  head_match start e adv s g r
  ↔ ∃ t, strip_prefix start s = Some t
         ∧ head_match "" e (adv && bool_decide (start = "")) t g r.
Proof.
  unfold head_match. simpl. split.
  - intros (-> & Hnl & Hne). exists (g +:+ e +:+ r).
    split; [apply strip_prefix_app|]. split_and!; [done..|].
    intros [-> ->%bool_decide_eq_true]%andb_true_iff. by apply Hne.
  - intros (t & ->%strip_prefix_Some & -> & Hnl & Hne). split_and!; [done..|].
    intros -> Heq. destruct start; [|done]. by apply Hne.
Qed.

Lemma match_at_Some adv s g r :
  match_at start e adv s = Some (g, r) → lazy_match start e adv s g r.
Proof.
  unfold match_at. destruct (strip_prefix start s) as [t|] eqn:Ht; [|done].
  intros [Hhead Hmin]%lazy_group_Some. split.
  - apply head_match_strip. by exists t.
  - intros g' r' (t' & Ht' & Hhead')%head_match_strip.
    rewrite Ht in Ht'. injection Ht' as <-. by apply (Hmin g' r').
Qed.

Lemma match_at_None adv s g r :
  match_at start e adv s = None → ¬ head_match start e adv s g r.
Proof.
  unfold match_at. intros Hnone (t & Ht & Hhead)%head_match_strip.
  rewrite Ht in Hnone. by apply (lazy_group_None _ _ g r) in Hnone.
Qed.
End LazyGroup.

Section Scan.
Variables start e : string.

Lemma empty_match_flag s g r :
  s = start +:+ g +:+ e +:+ r →
  bool_decide (String.length r = String.length s)
  = bool_decide (start +:+ g +:+ e = "").
Proof.
  intros ->. rewrite !string_length_app.
  apply bool_decide_ext. split.
  - intros Hlen. destruct start; [|simpl in Hlen; lia].
    destruct g; [|simpl in Hlen; lia]. destruct e; [done | simpl in Hlen; lia].
  - intros Heq. destruct start; [|done]. destruct g; [|done].
    destruct e; [simpl; lia | done].
Qed.

Lemma adv_at_nil adv : adv_at adv "" = adv.
Proof. unfold adv_at. by rewrite andb_true_r. Qed.

Lemma adv_at_cons adv c p : adv_at adv (String c p) = false.
Proof. unfold adv_at. by rewrite andb_false_r. Qed.

Lemma scanned_here adv s g r gs :
  lazy_match start e adv s g r →
  Scanned start e (bool_decide (start +:+ g +:+ e = "")) r gs →
  Scanned start e adv s (g :: gs).
Proof.
  intros Hlazy Hrest. apply (scanned_match start e adv "" s g r gs).
  - intros p' t' g' r' _ Hlen. simpl in Hlen. lia.
  - by rewrite adv_at_nil.
  - done.
Qed.

Lemma scanned_skip adv c s gs :
  (∀ g r, ¬ head_match start e adv (String c s) g r) →
  Scanned start e false s gs →
  Scanned start e adv (String c s) gs.
Proof.
  intros Hhead Hs. remember false as adv' eqn:Hadv' in Hs.
  destruct Hs as [adv' s Hno|adv' p t g r gs Hearlier Hlazy Hrest];
    subst adv'.
  - apply scanned_none. intros [|c' p] t g r Heq.
    + rewrite adv_at_nil. simpl in Heq. subst t. apply Hhead.
    + rewrite adv_at_cons. injection Heq as <- Heq.
      apply (Hno p t g r Heq).
  - apply (scanned_match start e adv (String c p) t g r gs).
    + intros [|c' p'] t' g' r' Heq Hlen.
      * rewrite adv_at_nil. simpl in Heq. subst t'. apply Hhead.
      * rewrite adv_at_cons. injection Heq as <- Heq. simpl in Hlen.
        apply (Hearlier p' t' g' r' Heq ltac:(lia)).
    + by rewrite adv_at_cons.
    + done.
Qed.

Lemma findall_from_scanned adv s :
  Scanned start e adv s (findall_from start e adv s).
Proof.
  funelim (findall_from start e adv s).
  - pose proof (match_at_Some _ _ _ _ _ _ Hm) as Hlazy.
    apply (scanned_here adv s g r); [done|].
    destruct Hlazy as [(Hs & _) _].
    by rewrite <- (empty_match_flag s g r).
  - apply scanned_none. intros p t g r Heq.
    destruct p; [|done]. simpl in Heq. subst t. rewrite adv_at_nil.
    by apply match_at_None.
  - apply scanned_skip; [|done]. intros g r. by apply match_at_None.
Qed.
End Scan.

Lemma string_app_inj_length (s1 s2 t1 t2 : string) :
  s1 +:+ t1 = s2 +:+ t2 → String.length s1 = String.length s2 →
  s1 = s2 ∧ t1 = t2.
Proof.
  revert s2. induction s1 as [|a s1 IH]; intros [|b s2] Heq Hlen;
    simpl in *; try done.
  injection Heq as -> Heq. destruct (IH s2 Heq) as [-> ->]; [lia | done].
Qed.

Section ScanUnique.
Variables start e : string.

Lemma adv_at_false p : adv_at false p = false.
Proof. done. Qed.

Lemma lazy_match_unique adv s g r :
  lazy_match start e adv s g r → match_at start e adv s = Some (g, r).
Proof.
  intros [Hhead Hmin].
  destruct (match_at start e adv s) as [[g0 r0]|] eqn:Hm.
  - apply match_at_Some in Hm as [Hhead0 Hmin0].
    pose proof (Hmin _ _ Hhead0) as Hle. pose proof (Hmin0 _ _ Hhead) as Hle0.
    destruct Hhead as (Hs & _), Hhead0 as (Hs0 & _). rewrite Hs in Hs0.
    apply (inj (String.app start)) in Hs0.
    apply string_app_inj_length in Hs0 as [-> Hs0]; [|lia].
    by apply (inj (String.app e)) in Hs0 as ->.
  - by apply (match_at_None _ _ _ _ g r) in Hm.
Qed.

Lemma findall_from_none adv s :
  (∀ p t g r, s = p +:+ t → ¬ head_match start e (adv_at adv p) t g r) →
  findall_from start e adv s = [].
Proof.
  revert adv. induction s as [|c s IH]; intros adv Hno.
  - apply findall_from_end.
    destruct (match_at start e adv "") as [[g r]|] eqn:Hm; [|done].
    apply match_at_Some in Hm as [Hhead _].
    destruct (Hno "" "" g r eq_refl). by rewrite adv_at_nil.
  - rewrite findall_from_skip.
    + apply IH. intros p t g r ->. rewrite adv_at_false.
      specialize (Hno (String c p) t g r eq_refl).
      by rewrite adv_at_cons in Hno.
    + destruct (match_at start e adv (String c s)) as [[g r]|] eqn:Hm; [|done].
      apply match_at_Some in Hm as [Hhead _].
      destruct (Hno "" (String c s) g r eq_refl). by rewrite adv_at_nil.
Qed.

Lemma findall_from_first adv p t g r :
  (∀ p' t' g' r', p +:+ t = p' +:+ t' → String.length p' < String.length p →
                  ¬ head_match start e (adv_at adv p') t' g' r') →
  lazy_match start e (adv_at adv p) t g r →
  findall_from start e adv (p +:+ t)
  = g :: findall_from start e (bool_decide (start +:+ g +:+ e = "")) r.
Proof.
  revert adv. induction p as [|c p IH]; intros adv Hearlier Hlazy.
  - rewrite adv_at_nil in Hlazy. simpl.
    rewrite (findall_from_match _ _ _ _ g r) by by apply lazy_match_unique.
    destruct Hlazy as [(Hs & _) _].
    by rewrite (empty_match_flag start e t g r Hs).
  - change (String c p +:+ t) with (String c (p +:+ t)).
    rewrite findall_from_skip.
    + apply IH.
      * intros p' t' g' r' Heq Hlen. rewrite adv_at_false.
        specialize (Hearlier (String c p') t' g' r').
        rewrite adv_at_cons in Hearlier. apply Hearlier; [|simpl; lia].
        simpl. by rewrite Heq.
      * by rewrite adv_at_cons in Hlazy.
    + destruct (match_at start e adv (String c (p +:+ t))) as [[g0 r0]|] eqn:Hm;
        [|done].
      apply match_at_Some in Hm as [Hhead _].
      destruct (Hearlier "" (String c (p +:+ t)) g0 r0 eq_refl);
        [simpl; lia | by rewrite adv_at_nil].
Qed.

Lemma scanned_unique adv s gs :
  Scanned start e adv s gs → gs = findall_from start e adv s.
Proof.
  induction 1 as [adv s Hno|adv p t g r gs Hearlier Hlazy _ IH].
  - by rewrite findall_from_none.
  - rewrite (findall_from_first adv p t g r) by done. by rewrite IH.
Qed.

Lemma scanned_newline_free adv s gs :
  Scanned start e adv s gs → ∀ g, g ∈ gs → contains_char newline g = false.
Proof.
  induction 1 as [adv s Hno|adv p t g r gs Hearlier Hlazy _ IH]; intros g0.
  - by intros ?%elem_of_nil.
  - intros [->|Hin]%elem_of_cons; [|by apply IH].
    by destruct Hlazy as [(_ & Hnl & _) _].
Qed.

(** Every group stands in the text between the two delimiters. *)
Lemma scanned_bounded adv s gs :
  Scanned start e adv s gs →
  ∀ g, g ∈ gs → ∃ p r, s = p +:+ start +:+ g +:+ e +:+ r.
Proof.
  induction 1 as [adv s Hno|adv p t g r gs Hearlier Hlazy _ IH]; intros g0.
  - by intros ?%elem_of_nil.
  - destruct Hlazy as [(Ht & _ & _) _].
    intros [->|Hin]%elem_of_cons.
    + exists p, r. by rewrite Ht.
    + destruct (IH g0 Hin) as (p0 & r0 & ->).
      exists (p +:+ start +:+ g +:+ e +:+ p0), r0. rewrite Ht.
      by rewrite !string_app_assoc.
Qed.
End ScanUnique.

(** C2, as stated, fails: a name that spans a newline between its
    delimiters is not extracted. *)
Lemma extract_misses_newline_name :
  template_content state_newline_name
  = (current_delimiters state_newline_name).1 +:+ name_with_newline
    +:+ (current_delimiters state_newline_name).2
  ∧ placeholders (_extract_placeholders state_newline_name) = []
  ∧ name_with_newline ∉ placeholders (_extract_placeholders state_newline_name).
Proof.
  split_and!; [done | by vm_compute |].
  assert (placeholders (_extract_placeholders state_newline_name) = []) as ->
    by by vm_compute.
  apply not_elem_of_nil.
Qed.

(** C2, amended.  For every template text and delimiter pair, extraction
    scans the text from left to right and finds, each time at the first
    position after the match before it where the pattern can match, the
    match with the shortest inner text; the inner text never contains a
    newline, so a placeholder whose name spans a newline is not extracted.
    (After an empty match, possible only when both delimiters are empty, the
    next match must not be empty.)  The list of matches is determined by
    this description; every extracted name is one of them, is free of
    newlines and stands in the text between the delimiters. *)
Theorem extract_placeholders_scan (st : state) :
  let start := (current_delimiters st).1 in
  let e := (current_delimiters st).2 in
  let text := template_content st in
  let matches := re_findall start e text in
  Scanned start e false text matches
  ∧ (∀ gs, Scanned start e false text gs → gs = matches)
  ∧ (∀ name, name ∈ placeholders (_extract_placeholders st) ↔ name ∈ matches)
  ∧ (∀ name, name ∈ placeholders (_extract_placeholders st) →
       contains_char newline name = false
       ∧ ∃ p r, text = p +:+ start +:+ name +:+ e +:+ r)
  ∧ re_findall "{{" "}}" text_two_lines = ["c"; "d"].
Proof.
  intros start e text matches.
  pose proof (findall_from_scanned start e false text) as Hscan.
  split_and!.
  - exact Hscan.
  - intros gs Hgs. by apply scanned_unique.
  - intros name. apply dict_fromkeys_elem.
  - intros name Hin.
    pose proof (proj1 (dict_fromkeys_elem (re_findall start e text) name) Hin)
      as Hin'.
    split.
    + exact (scanned_newline_free _ _ _ _ _ Hscan name Hin').
    + exact (scanned_bounded _ _ _ _ _ Hscan name Hin').
  - by vm_compute.
Qed.


(** ** Runs from loading to output *)

Example orders_loaded :
  placeholders state_orders = ["name"; "id"]
  ∧ csv_data state_orders = [row_ann_7; row_ann_8]
  ∧ errors state_orders = [].
Proof. split_and!; by vm_compute. Qed.

Example orders_individual :
  ∃ fs',
    generate_output "separate" (Some "name") "20261103_120000" state_orders
                    fs_empty
    = Some (Ok (state_orders, fs', true))
    ∧ files fs' !! "output/Ann_Lee.txt" = Some "Dear Ann Lee, order 7"
    ∧ files fs' !! "output/Ann_Lee_1.txt" = Some "Dear Ann Lee, order 8"
    ∧ size (files fs') = 2.
Proof.
  destruct (generate_output "separate" (Some "name") "20261103_120000"
              state_orders fs_empty) as [[[[st' fs'] ok]|]|] eqn:Hgen;
    vm_compute in Hgen; try discriminate Hgen.
  injection Hgen as <- <- <-. eexists. split; [reflexivity|].
  split_and!; by vm_compute.
Qed.

Example orders_combined :
  ∃ fs',
    generate_output "combined" None "20261103_120000" state_orders fs_empty
    = Some (Ok (state_orders, fs', true))
    ∧ files fs' !! "output/combined_output_20261103_120000.txt"
      = Some ("Dear Ann Lee, order 7" +:+ String newline ""
              +:+ separator +:+ String newline ""
              +:+ "Dear Ann Lee, order 8" +:+ String newline ""
              +:+ separator).
Proof.
  destruct (generate_output "combined" None "20261103_120000"
              state_orders fs_empty) as [[[[st' fs'] ok]|]|] eqn:Hgen;
    vm_compute in Hgen; try discriminate Hgen.
  injection Hgen as <- <- <-. eexists. split; [reflexivity|].
  by vm_compute.
Qed.

(** ** Further properties of the loaders *)

(** X1.  [load_template] returns [True] exactly when the file could be read.
    It never changes the rows, the output directory or the delimiters.  When
    it fails, the template and the placeholders are the old ones and exactly
    one entry is appended to the error log; when it succeeds, the template is
    the text read and the error log is unchanged. *)
Theorem load_template_frame (env : Env) (path : string) (st : state) :
  let st' := (load_template env path st).1 in
  let ok := (load_template env path st).2 in
  csv_data st' = csv_data st
  ∧ output_dir st' = output_dir st
  ∧ current_delimiters st' = current_delimiters st
  ∧ (ok = true ↔ ∃ text, open_template env path = Contents text)
  ∧ (ok = false →
       template_content st' = template_content st
       ∧ placeholders st' = placeholders st
       ∧ ∃ msg, errors st' = errors st ++ [msg])
  ∧ (ok = true →
       open_template env path = Contents (template_content st')
       ∧ placeholders_in_sync st'
       ∧ errors st' = errors st).
Proof.
  unfold load_template. destruct (open_template env path) as [|msg|text]; simpl.
  - split_and!; try done.
    + split; [done | by intros [? ?]].
    + intros _. split_and!; [done..|]. by eexists.
  - split_and!; try done.
    + split; [done | by intros [? ?]].
    + intros _. split_and!; [done..|]. by eexists.
  - split_and!; try done. split; [by eexists | done].
Qed.

Lemma filter_all_false {A} (P : A → Prop) `{∀ x, Decision (P x)} (l : list A) :
  (∀ x, x ∈ l → ¬ P x) → filter P l = [].
Proof.
  induction l as [|x l IH]; intros Hall; [done|].
  rewrite filter_cons_False by (apply Hall; left).
  apply IH. intros y Hy. apply Hall. by right.
Qed.

(** X4.  [load_csv_data] returns [True] exactly when the file was read, has
    at least one row, and every placeholder is a key of the first row.  When
    it returns [True] the rows are the ones read and nothing else has
    changed, the error log included. *)
Theorem load_csv_data_success (env : Env) (path : string) (st : state) :
  ((load_csv_data env path st).2 = true
   ↔ ∃ row rest,
       open_csv env path = Contents (row :: rest)
       ∧ ∀ ph, ph ∈ placeholders st → is_Some (row !! ph))
  ∧ ((load_csv_data env path st).2 = true →
       ∃ rows,
         open_csv env path = Contents rows
         ∧ (load_csv_data env path st).1 = set_csv_data rows st).
Proof.
  unfold load_csv_data.
  destruct (open_csv env path) as [|msg|[|row rest]]; simpl;
    try (split; [split; [done | by intros (?&?&?&_)] | done]).
  rewrite (validate_headers_cons _ row rest) by done.
  case_bool_decide as Hmiss; simpl.
  - split; [|done]. split; [done|].
    intros (row' & rest' & [= <- <-] & Hall).
    exfalso. apply Hmiss. unfold missing_in. simpl.
    apply filter_all_false. intros ph Hph Hnone.
    destruct (Hall ph Hph) as [v Hv]. congruence.
  - split; [|intros _; by eexists].
    split; [intros _|done]. exists row, rest. split; [done|].
    intros ph Hph. unfold missing_in in Hmiss. simpl in Hmiss.
    destruct (row !! ph) eqn:Hrow; [by eexists|]. exfalso.
    assert (ph ∈ filter (λ ph, row !! ph = None) (placeholders st)) as Hin
      by by apply list_elem_of_filter.
    rewrite Hmiss in Hin. by apply elem_of_nil in Hin.
Qed.

(** ** Further properties of generation *)

Section IndividualAccount.
Variable merge : state → Row → result string.

(** A row that is written adds one file.  A row that fails adds none, or
    the one that was opened before writing raised. *)
Lemma RowHandled_size field st i row fs fs1 r :
  RowHandled merge field st i row fs fs1 r →
  match r with
  | Ok _ => size (files fs1) = S (size (files fs))
  | Raise _ =>
      size (files fs) ≤ size (files fs1) ≤ S (size (files fs))
      ∧ ((∀ p text, write_fault fs p text = None) → fs1 = fs)
  end.
Proof.
  intros Hh.
  destruct Hh as [msg Hm|content msg Hm Hb|content base p msg Hm Hb Hp Hw
                 |content base p msg rest Hm Hb Hp Hw Hf
                 |content base p Hm Hb Hp Hw Hf];
    try (split; [lia | done]).
  - destruct Hp as (k & _ & Hfree & _). simpl.
    rewrite (map_size_insert_None _ _ _ Hfree).
    split; [lia|]. intros Hnone. by rewrite Hnone in Hf.
  - destruct Hp as (k & _ & Hfree & _). simpl.
    by apply map_size_insert_None.
Qed.

Lemma individual_loop_account field i rows st fs n st' fs' n' :
  individual_loop merge field i rows st fs n = Some (st', fs', n') →
  ∃ fails,
    errors st' = errors st ++ row_errors fails
    ∧ Forall (λ j, i ≤ j < i + length rows) fails.*1
    ∧ StronglySorted lt fails.*1
    ∧ n' + length fails = n + length rows
    ∧ size (files fs) + n' ≤ size (files fs') + n
    ∧ size (files fs') ≤ size (files fs) + length rows
    ∧ ((∀ p text, write_fault fs p text = None) →
         size (files fs') + length fails = size (files fs) + length rows).
Proof.
  revert i st fs n. induction rows as [|row rows IH]; intros i st fs n; simpl.
  - intros [= <- <- <-]. exists []. simpl. rewrite app_nil_r.
    split_and!; [done | constructor | constructor | lia | lia | lia | lia].
  - destruct (write_row_handled merge field i row st fs)
      as (fs1 & r & -> & Hh).
    pose proof (RowHandled_size _ _ _ _ _ _ _ Hh) as Hsize1.
    pose proof (RowHandled_keeps_files _ _ _ _ _ _ _ _ Hh)
      as (_ & _ & _ & Hsame).
    destruct r as [[]|msg].
    + intros (fails & Herr & Hrange & Hsorted & Hn & Hlow & Hup & Hexact)%IH.
      exists fails. split_and!; [done| |done|lia|lia|lia|].
      * eapply Forall_impl; [exact Hrange|]. simpl. lia.
      * intros Hnone. rewrite Hsame in Hexact. specialize (Hexact Hnone). lia.
    + destruct Hsize1 as [Hsize1 Hunchanged].
      intros (fails & Herr & Hrange & Hsorted & Hn & Hlow & Hup & Hexact)%IH.
      exists ((i, msg) :: fails). simpl in *. split_and!.
      * rewrite Herr. by rewrite <- app_assoc.
      * constructor; [lia|]. eapply Forall_impl; [exact Hrange|]. simpl. lia.
      * constructor; [done|]. eapply Forall_impl; [exact Hrange|]. simpl. lia.
      * lia.
      * lia.
      * lia.
      * intros Hnone. rewrite Hsame in Hexact. specialize (Hexact Hnone).
        rewrite (Hunchanged Hnone) in Hexact. lia.
Qed.
End IndividualAccount.


Lemma document_path_inj dir : Inj (=) (=) (document_path dir).
Proof.
  intros i j. unfold document_path, os_path_join.
  change (starts_with_sep ("document_" +:+ pretty (i + 1) +:+ ".txt"))
    with false.
  change (starts_with_sep ("document_" +:+ pretty (j + 1) +:+ ".txt"))
    with false.
  cbv iota. intros Heq.
  assert ("document_" +:+ pretty (i + 1) +:+ ".txt"
          = "document_" +:+ pretty (j + 1) +:+ ".txt") as Hname.
  { destruct (bool_decide (dir = "") || ends_with_sep dir).
    - by apply (inj (String.app dir)) in Heq.
    - by apply (inj (String.app dir)), (inj (String.app "/")) in Heq. }
  apply (inj (String.app "document_")), string_app_inj_r in Hname.
  apply (inj pretty) in Hname. lia.
Qed.

Lemma base_filename_unused field i row rows :
  unused_field field rows → row ∈ rows →
  base_filename field i row = Ok ("document_" +:+ pretty (i + 1)).
Proof.
  unfold unused_field, base_filename. destruct field as [f|]; [|done].
  intros [->|Hall] Hin; [done|].
  case_bool_decide; [|done].
  rewrite Forall_forall in Hall. by rewrite (Hall row Hin).
Qed.

Lemma individual_loop_documents field i rows all st fs n :
  unused_field field all → rows ⊆ all →
  (∀ j, j < length rows →
        files fs !! document_path (output_dir st) (i + j) = None
        ∧ write_error fs (document_path (output_dir st) (i + j)) = None) →
  (∀ j row, rows !! j = Some row →
        write_fault fs (document_path (output_dir st) (i + j))
                    (_merge_template st row) = None) →
  ∃ fs',
    individual_loop own_merge field i rows st fs n
    = Some (st, fs', n + length rows)
    ∧ (∀ j row, rows !! j = Some row →
         files fs' !! document_path (output_dir st) (i + j)
         = Some (_merge_template st row))
    ∧ (∀ p, (∀ j, j < length rows → p ≠ document_path (output_dir st) (i + j)) →
            files fs' !! p = files fs !! p)
    ∧ write_error fs' = write_error fs.
Proof.
  intros Hunused. revert i fs n.
  induction rows as [|row rows IH]; intros i fs n Hsub Hfree Hfault; simpl.
  - exists fs. split_and!; [f_equal; f_equal; lia | done | done | done].
  - destruct (Hfree 0 ltac:(simpl; lia)) as [Hfree0 Hwrite0].
    pose proof (Hfault 0 row eq_refl) as Hfault0.
    rewrite Nat.add_0_r in Hfree0, Hwrite0, Hfault0.
    unfold write_row, own_merge.
    rewrite (base_filename_unused field i row all Hunused)
      by (apply Hsub; left).
    rewrite (free_output_path_first fs (output_dir st)
               ("document_" +:+ pretty (i + 1))) by exact Hfree0.
    change (candidate_path (output_dir st) ("document_" +:+ pretty (i + 1)) 0)
      with (document_path (output_dir st) i).
    unfold write_file. rewrite Hwrite0, Hfault0.
    set (fs1 := with_file fs (document_path (output_dir st) i)
                          (_merge_template st row)).
    destruct (IH (S i) fs1 (S n)) as (fs' & Hloop & Hdocs & Hrest & Hwe).
    { intros r Hr. apply Hsub. by right. }
    { intros j Hj. destruct (Hfree (S j) ltac:(simpl; lia)) as [Hf Hw].
      replace (i + S j) with (S i + j) in Hf, Hw by lia.
      split; [|done]. simpl. rewrite lookup_insert_ne; [done|].
      intros Heq%document_path_inj. lia. }
    { intros j r Hr. replace (S i + j) with (i + S j) by lia.
      by apply (Hfault (S j)). }
    exists fs'. split_and!.
    + transitivity (Some (st, fs', S n + length rows)); [exact Hloop|].
      do 2 f_equal. lia.
    + intros [|j] r Hr; simpl in Hr.
      * injection Hr as <-. rewrite Nat.add_0_r.
        rewrite Hrest; [simpl; by rewrite lookup_insert_eq|].
        intros j Hj Heq%document_path_inj. lia.
      * replace (i + S j) with (S i + j) by lia. by apply Hdocs.
    + intros p Hp. rewrite Hrest.
      * simpl. rewrite lookup_insert_ne; [done|].
        intros <-. apply (Hp 0); [simpl; lia | by rewrite Nat.add_0_r].
      * intros j Hj. replace (S i + j) with (i + S j) by lia.
        apply Hp. simpl. lia.
    + by rewrite Hwe.
Qed.

(** X7.  When the filename field selects no column and the paths
    [document_1.txt], ..., [document_n.txt] of the output directory are
    free, can be opened for writing and take the text of their row,
    individual mode writes the merged text of row [i] to
    [document_i.txt], for every row, touches no other path, logs nothing and
    returns [True] unless there are no rows. *)
Theorem individual_files_documents (filename_field : option string)
    (st : state) (fs : FS) :
  unused_field filename_field (csv_data st) →
  (∀ j, j < length (csv_data st) →
        files fs !! document_path (output_dir st) j = None
        ∧ write_error fs (document_path (output_dir st) j) = None) →
  (∀ j row, csv_data st !! j = Some row →
        write_fault fs (document_path (output_dir st) j)
                    (_merge_template st row) = None) →
  ∃ fs',
    _generate_individual_files filename_field st fs
    = Some (st, fs', bool_decide (csv_data st ≠ []))
    ∧ (∀ j row, csv_data st !! j = Some row →
         files fs' !! document_path (output_dir st) j
         = Some (_merge_template st row))
    ∧ (∀ p, (∀ j, j < length (csv_data st) →
                  p ≠ document_path (output_dir st) j) →
            files fs' !! p = files fs !! p).
Proof.
  intros Hunused Hfree Hfault.
  destruct (individual_loop_documents filename_field 0 (csv_data st)
              (csv_data st) st fs 0 Hunused ltac:(done) Hfree Hfault)
    as (fs' & Hloop & Hdocs & Hrest & _).
  exists fs'. unfold _generate_individual_files, individual_with.
  rewrite Hloop. split_and!; [|done..].
  do 2 f_equal. apply bool_decide_ext. simpl.
  destruct (csv_data st); simpl; [split; [lia | done] | split; [done | lia]].
Qed.

Lemma combined_loop_own i rows st acc n :
  combined_loop own_merge i rows st acc n
  = (st, acc ++ combined_pieces st rows, n + length rows).
Proof.
  revert i acc n. induction rows as [|row rows IH]; intros i acc n; simpl.
  - by rewrite app_nil_r, Nat.add_0_r.
  - rewrite IH. unfold combined_pieces. simpl.
    rewrite <- !app_assoc. simpl. do 2 f_equal. lia.
Qed.

Lemma combined_output_own (timestamp : string) (st : state) (fs : FS) :
  _generate_combined_output timestamp st fs
  = match csv_data st with
    | [] => (st, fs, false)
    | _ :: _ =>
        let text :=
          str_join (String newline "") (combined_pieces st (csv_data st)) in
        match write_error fs (combined_path st timestamp) with
        | Some msg =>
            (errors_append ("Error writing combined file: " +:+ msg) st,
             fs, false)
        | None =>
            match write_fault fs (combined_path st timestamp) text with
            | Some (msg, rest) =>
                (errors_append ("Error writing combined file: " +:+ msg) st,
                 with_file fs (combined_path st timestamp) rest, false)
            | None => (st, with_file fs (combined_path st timestamp) text, true)
            end
        end
    end.
Proof.
  unfold _generate_combined_output, combined_with.
  rewrite combined_loop_own. cbv beta iota zeta.
  fold (combined_path st timestamp).
  change ([] ++ combined_pieces st (csv_data st))
    with (combined_pieces st (csv_data st)).
  destruct (csv_data st) as [|row rows] eqn:Hrows; [done|].
  rewrite bool_decide_eq_true_2 by (simpl; lia).
  unfold write_file. cbv zeta.
  destruct (write_error fs (combined_path st timestamp)); [done|].
  by destruct (write_fault fs (combined_path st timestamp) _) as [[msg rest]|].
Qed.

(** ** The generator as a whole *)

Lemma extract_placeholders_in_sync st :
  placeholders_in_sync (_extract_placeholders st).
Proof. reflexivity. Qed.

Lemma in_sync_same_template st st' :
  same_template st st' → placeholders_in_sync st → placeholders_in_sync st'.
Proof.
  unfold placeholders_in_sync. intros (-> & -> & _ & ->). done.
Qed.

Lemma set_delimiters_in_sync start e st :
  nonempty_pair start e →
  nonempty_pair (current_delimiters st).1 (current_delimiters st).2 →
  placeholders_in_sync st →
  placeholders_in_sync (set_delimiters start e st).
Proof.
  intros [Hs He] [Hs' He'] Hsync. unfold set_delimiters.
  case_bool_decide as Ht; [apply extract_placeholders_in_sync|].
  simpl in Ht.
  unfold placeholders_in_sync in *. simpl. rewrite Hsync, Ht.
  rewrite !re_findall_empty_text; [done | |].
  - intros [= ? ?]. done.
  - destruct (current_delimiters st) as [s0 e0]. intros [= ? ?]. done.
Qed.

Lemma reachable_in_sync_nonempty (st : state) :
  reachable nonempty_pair st →
  placeholders_in_sync st
  ∧ nonempty_pair (current_delimiters st).1 (current_delimiters st).2.
Proof.
  induction 1 as [|env path st _ [IH Hne]|start e st _ [IH Hne] Hok
                  |start_input end_input st _ [IH Hne]
                  |env path st _ [IH Hne]
                  |fmt field ts st fs st' fs' ok _ [IH Hne] Hgen
                  |st _ [IH Hne]].
  - split; [by vm_compute | by split].
  - split; [|by rewrite delimiters_load_template].
    unfold load_template. destruct (open_template env path); simpl;
      [done | done | apply extract_placeholders_in_sync].
  - split; [by apply set_delimiters_in_sync|].
    by rewrite delimiters_set_delimiters.
  - assert (nonempty_pair (or_default (str_strip start_input) "{{")
                          (or_default (str_strip end_input) "}}")) as Hok
      by (split; by apply or_default_nonempty).
    unfold menu_set_delimiters. split; [by apply set_delimiters_in_sync|].
    by rewrite delimiters_set_delimiters.
  - pose proof (same_template_load_csv_data env path st) as Hsame.
    split; [by eapply in_sync_same_template|].
    by destruct Hsame as (_ & _ & _ & ->).
  - destruct (generate_output_frame _ _ _ _ _ _ _ _ Hgen) as [Hsame _].
    split; [by eapply in_sync_same_template|].
    by destruct Hsame as (_ & _ & _ & ->).
  - done.
Qed.

(** X2.  In every state reached by calls that pass non-empty markers to
    [set_delimiters], the placeholder list is the one extraction computes
    from the template and the delimiters held at that moment; no call leaves
    a stale list behind. *)
Theorem placeholders_always_in_sync (st : state) :
  reachable nonempty_pair st → placeholders_in_sync st.
Proof. intros Hreach. by apply reachable_in_sync_nonempty. Qed.

Lemma placeholders_always_in_sync_witness :
  placeholders (set_delimiters "<<" ">>"
                  (load_template env_orders "letter.txt" __init__).1) = []
  ∧ placeholders (set_delimiters "{{" "}}"
                    (set_delimiters "<<" ">>"
                       (load_template env_orders "letter.txt" __init__).1))
    = ["name"; "id"].
Proof.
  split.
  - rewrite (placeholders_always_in_sync
               (set_delimiters "<<" ">>"
                  (load_template env_orders "letter.txt" __init__).1)).
    + by vm_compute.
    + apply reach_set_delimiters; [|by split].
      apply reach_load_template, reach_init.
  - rewrite (placeholders_always_in_sync
               (set_delimiters "{{" "}}"
                  (set_delimiters "<<" ">>"
                     (load_template env_orders "letter.txt" __init__).1))).
    + by vm_compute.
    + apply reach_set_delimiters; [|by split].
      apply reach_set_delimiters; [|by split].
      apply reach_load_template, reach_init.
Defined.

Lemma generate_output_total fmt field ts st fs :
  ∃ r, generate_output fmt field ts st fs = Some r.
Proof.
  unfold generate_output. destruct (_ready_to_generate st) as [st1 [|]];
    [|by eexists].
  destruct (makedirs_error fs (output_dir st1)); [by eexists|].
  case_bool_decide; [by eexists|].
  unfold _generate_individual_files.
  destruct (individual_with_keeps_files own_merge field st1 fs)
    as (st' & fs' & ok & -> & _).
  by eexists.
Qed.

(** X5.  [generate_output] always ends.  With no template loaded it returns
    [False] with the entry ["No template loaded"], and with a template but no
    rows with ["No CSV data loaded"]; in both cases the files are untouched
    and the directory is not created.  An exception escapes exactly when
    both inputs are loaded and [os.makedirs] raises; nothing is logged
    then. *)
Theorem generate_output_gate (fmt : string) (field : option string)
    (ts : string) (st : state) (fs : FS) :
  (∃ r, generate_output fmt field ts st fs = Some r)
  ∧ (template_content st = "" →
       generate_output fmt field ts st fs
       = Some (Ok (errors_append "No template loaded" st, fs, false)))
  ∧ (template_content st ≠ "" → csv_data st = [] →
       generate_output fmt field ts st fs
       = Some (Ok (errors_append "No CSV data loaded" st, fs, false)))
  ∧ (∀ msg,
       generate_output fmt field ts st fs = Some (Raise msg)
       ↔ template_content st ≠ "" ∧ csv_data st ≠ []
         ∧ makedirs_error fs (output_dir st) = Some msg).
Proof.
  split; [apply generate_output_total|].
  unfold generate_output, _ready_to_generate. split_and!.
  - intros ->. done.
  - intros Ht ->. by rewrite bool_decide_eq_false_2.
  - intros msg. case_bool_decide as Ht; [split; [done | by intros (?&_)]|].
    case_bool_decide as Hr; [split; [done | by intros (_&?&_)]|].
    destruct (makedirs_error fs (output_dir st)) as [msg'|].
    + split; [by intros [= ->] | by intros (_&_&[= ->])].
    + split; [|by intros (_&_&?)].
      case_bool_decide; [done|].
      by destruct (_generate_individual_files field st fs).
Qed.

(** X8.  With the class's own merge no row fails in combined mode.  Without
    rows nothing is written and the result is [False].  Otherwise the file
    [combined_output_<timestamp>.txt] of the output directory is opened for
    writing.  If opening raises, the files are untouched, the failure is
    logged and the result is [False].  If writing raises after the file was
    opened, the file holds what reached it instead of what it held before,
    the failure is logged and the result is [False].  Otherwise the file
    holds the merged rows, each followed by the separator line, joined by
    newlines, replacing whatever was at that path, and the result is
    [True]. *)
Theorem combined_output_content (timestamp : string) (st : state) (fs : FS) :
  _generate_combined_output timestamp st fs
  = match csv_data st with
    | [] => (st, fs, false)
    | _ :: _ =>
        let text :=
          str_join (String newline "") (combined_pieces st (csv_data st)) in
        match write_error fs (combined_path st timestamp) with
        | Some msg =>
            (errors_append ("Error writing combined file: " +:+ msg) st,
             fs, false)
        | None =>
            match write_fault fs (combined_path st timestamp) text with
            | Some (msg, rest) =>
                (errors_append ("Error writing combined file: " +:+ msg) st,
                 with_file fs (combined_path st timestamp) rest, false)
            | None => (st, with_file fs (combined_path st timestamp) text, true)
            end
        end
    end.
Proof. apply combined_output_own. Qed.


Lemma individual_files_documents_witness :
  ∃ fs',
    _generate_individual_files None state_orders fs_empty
    = Some (state_orders, fs', true)
    ∧ files fs' !! "output/document_1.txt" = Some "Dear Ann Lee, order 7"
    ∧ files fs' !! "output/document_2.txt" = Some "Dear Ann Lee, order 8".
Proof.
  destruct (individual_files_documents None state_orders fs_empty)
    as (fs' & Hgen & Hdocs & _).
  - exact I.
  - intros j _. by split.
  - done.
  - exists fs'. split_and!.
    + rewrite Hgen. by vm_compute.
    + etrans; [exact (Hdocs 0 row_ann_7 eq_refl) | by vm_compute].
    + etrans; [exact (Hdocs 1 row_ann_8 eq_refl) | by vm_compute].
Defined.

Ltac one_entry := eexists [_]; split; [reflexivity | simpl; lia].
Ltac no_entry :=
  exists []; rewrite app_nil_r; split; [reflexivity | simpl; lia].

(** X3.  The error log only grows: [load_template] and [load_csv_data]
    append at most one entry, [set_delimiters] none, and [generate_output]
    at most one entry per row (one when it is not ready); none of them
    removes or reorders entries.  Only [clear_errors] removes entries: it
    empties the log and changes nothing else. *)
Theorem error_log_append_only :
  (∀ env path st,
     ∃ new, errors (load_template env path st).1 = errors st ++ new
            ∧ length new ≤ 1)
  ∧ (∀ env path st,
       ∃ new, errors (load_csv_data env path st).1 = errors st ++ new
              ∧ length new ≤ 1)
  ∧ (∀ start e st, errors (set_delimiters start e st) = errors st)
  ∧ (∀ fmt field ts st fs st' fs' ok,
       generate_output fmt field ts st fs = Some (Ok (st', fs', ok)) →
       ∃ new, errors st' = errors st ++ new
              ∧ length new ≤ max 1 (length (csv_data st)))
  ∧ (∀ st, errors (clear_errors st) = []
           ∧ same_template st (clear_errors st)
           ∧ csv_data (clear_errors st) = csv_data st).
Proof.
  split_and!.
  - intros env path st. unfold load_template.
    destruct (open_template env path); simpl;
      [one_entry | one_entry | no_entry].
  - intros env path st. unfold load_csv_data, _validate_csv_headers.
    destruct (open_csv env path) as [|msg|[|row rest]]; simpl;
      [one_entry | one_entry | one_entry |].
    case_bool_decide; simpl; [one_entry | no_entry].
  - intros start e st. unfold set_delimiters. by case_bool_decide.
  - intros fmt field ts st fs st' fs' ok.
    unfold generate_output, _ready_to_generate.
    case_bool_decide; [intros [= <- <- <-]; one_entry|].
    case_bool_decide; [intros [= <- <- <-]; one_entry|].
    destruct (makedirs_error fs (output_dir st)); [done|].
    case_bool_decide.
    + rewrite combined_output_own.
      destruct (csv_data st) as [|row rows];
        [intros [= <- <- <-]; no_entry|].
      cbv zeta. destruct (write_error fs _);
        [intros [= <- <- <-]; one_entry|].
      destruct (write_fault fs _ _) as [[msg rest]|]; intros [= <- <- <-];
        [one_entry | no_entry].
    + unfold _generate_individual_files, individual_with.
      destruct (individual_loop own_merge field 0 (csv_data st) st fs 0)
        as [[[st1 fs1] n1]|] eqn:Hloop; [|done].
      intros [= <- <- <-].
      apply individual_loop_account in Hloop as (fails & Herr & _ & _ & Hn & _).
      exists (row_errors fails). split; [done|].
      unfold row_errors. rewrite length_fmap. lia.
  - intros st. by repeat split.
Qed.

Lemma str_strip_blank (s : string) :
  string_forallb is_space s = true → str_strip s = "".
Proof.
  unfold str_strip. induction s as [|c s IH]; simpl; [done|].
  intros [Hc Hs]%andb_true_iff. rewrite Hc. by apply IH.
Qed.

(** X9.  Choice 3 of the menu never installs an empty marker nor one that
    starts or ends with whitespace: the input is stripped, and input that is
    empty or all whitespace selects the default ([{{] for the start, [}}]
    for the end). *)
Theorem menu_set_delimiters_trimmed (start_input end_input : string)
    (st : state) :
  let start := (current_delimiters
                  (menu_set_delimiters start_input end_input st)).1 in
  let e := (current_delimiters
              (menu_set_delimiters start_input end_input st)).2 in
  start ≠ "" ∧ e ≠ ""
  ∧ (string_forallb is_space start_input = true → start = "{{")
  ∧ (string_forallb is_space end_input = true → e = "}}")
  ∧ (str_strip start_input ≠ "" → start = str_strip start_input)
  ∧ (str_strip end_input ≠ "" → e = str_strip end_input)
  ∧ (∀ c, head_char start = Some c ∨ last_char start = Some c
          ∨ head_char e = Some c ∨ last_char e = Some c →
          is_space c = false).
Proof.
  unfold menu_set_delimiters. rewrite delimiters_set_delimiters. simpl.
  destruct (str_strip_spec start_input) as (_ & _ & _ & _ & _ & Hh1 & Hl1).
  destruct (str_strip_spec end_input) as (_ & _ & _ & _ & _ & Hh2 & Hl2).
  unfold or_default. split_and!.
  - by case_bool_decide.
  - by case_bool_decide.
  - intros ->%str_strip_blank. done.
  - intros ->%str_strip_blank. done.
  - intros Hne. by rewrite bool_decide_eq_false_2.
  - intros Hne. by rewrite bool_decide_eq_false_2.
  - intros c. repeat case_bool_decide; intros [Hc|[Hc|[Hc|Hc]]];
      first [by apply Hh1 | by apply Hl1 | by apply Hh2 | by apply Hl2
            | by injection Hc as <-].
Qed.

(** ** The menu of [main] *)

Ltac world_simpl :=
  cbn [world_of merger disk stdin stdout print set_merger fst snd].

Lemma foldl_print_fields (l : list string) (w : world) :
  let w' := foldl (λ w err, print ("- " +:+ err) w) w l in
  merger w' = merger w ∧ disk w' = disk w ∧ stdin w' = stdin w.
Proof.
  revert w. induction l as [|err l IH]; intros w; [done|].
  exact (IH (print ("- " +:+ err) w)).
Qed.

Lemma report_errors_merger w :
  merger (report_errors w) = clear_errors (merger w).
Proof.
  destruct (foldl_print_fields (get_errors (merger w)) w) as (Hm & _).
  unfold report_errors, set_merger. cbn [merger]. cbv zeta in Hm.
  by rewrite Hm.
Qed.

Lemma report_errors_stdin w : stdin (report_errors w) = stdin w.
Proof.
  destruct (foldl_print_fields (get_errors (merger w)) w) as (_ & _ & Hs).
  unfold report_errors, set_merger. cbn [stdin]. by cbv zeta in Hs.
Qed.

Lemma load_template_ok_errors env path st :
  (load_template env path st).2 = true →
  errors (load_template env path st).1 = errors st.
Proof. unfold load_template. by destruct (open_template env path). Qed.

Lemma load_csv_data_ok_errors env path st :
  (load_csv_data env path st).2 = true →
  errors (load_csv_data env path st).1 = errors st.
Proof.
  unfold load_csv_data, _validate_csv_headers.
  destruct (open_csv env path) as [|msg|[|row rest]]; simpl; try done.
  by case_bool_decide.
Qed.

Lemma pass_ok_after_input (w w1 : world) (r : step_result) :
  merger w1 = merger w → length (stdin w1) ≤ length (stdin w) →
  pass_ok false w1 r → pass_ok false w r.
Proof.
  intros Hm Hlen (Ht & Hin & Herr & Hbr).
  rewrite Hm in Ht, Herr. unfold pass_ok.
  split_and!; [done | simpl in *; lia | done | done].
Qed.

Lemma pass_ok_strict (w w1 : world) (r : step_result) :
  merger w1 = merger w → length (stdin w1) < length (stdin w) →
  pass_ok false w1 r → pass_ok true w r.
Proof.
  intros Hm Hlen (Ht & Hin & Herr & Hbr).
  rewrite Hm in Ht, Herr. unfold pass_ok. split_and!; [done| |done|].
  - intros w' ->. simpl in Hin. lia.
  - intros w' ->. by destruct (Hbr w' eq_refl).
Qed.

Lemma pass_ok_nothing (w : world) (r : step_result) :
  (∀ w', r ≠ Break w') → merger (world_of r) = merger w →
  length (stdin (world_of r)) ≤ length (stdin w) →
  pass_ok false w r.
Proof.
  intros Hbr Hm Hlen. unfold pass_ok. rewrite Hm.
  split_and!; [apply menu_nothing | done | by right; left |].
  intros w' ->. by destruct (Hbr w').
Qed.

Lemma choice_load_template_ok env w r :
  choice_load_template env w = Some r → pass_ok false w r.
Proof.
  unfold choice_load_template, with_input, input.
  destruct (stdin w) as [|line rest] eqn:Hin; simpl.
  - intros [= <-]. apply pass_ok_nothing; [done | done | simpl; lia ].
  - destruct (load_template (env (disk w)) (str_strip line) (merger w)).2
      eqn:Hok; intros [= <-].
    + unfold pass_ok. split_and!; world_simpl.
      * by apply menu_load_template.
      * rewrite Hin. simpl. lia.
      * right; left. by apply load_template_ok_errors.
      * done.
    + unfold pass_ok. split_and!; world_simpl.
      * rewrite report_errors_merger. by apply menu_load_template_failed.
      * rewrite report_errors_stdin, Hin. simpl. lia.
      * left. by rewrite report_errors_merger.
      * done.
Qed.

Lemma choice_load_csv_ok env w r :
  choice_load_csv env w = Some r → pass_ok false w r.
Proof.
  unfold choice_load_csv, with_input, input.
  destruct (stdin w) as [|line rest] eqn:Hin; simpl.
  - intros [= <-]. apply pass_ok_nothing; [done | done | simpl; lia ].
  - destruct (load_csv_data (env (disk w)) (str_strip line) (merger w)).2
      eqn:Hok; intros [= <-].
    + unfold pass_ok. split_and!; world_simpl.
      * by apply menu_load_csv.
      * rewrite Hin. simpl. lia.
      * right; left. by apply load_csv_data_ok_errors.
      * done.
    + unfold pass_ok. split_and!; world_simpl.
      * rewrite report_errors_merger. by apply menu_load_csv_failed.
      * rewrite report_errors_stdin, Hin. simpl. lia.
      * left. by rewrite report_errors_merger.
      * done.
Qed.

Lemma choice_set_delimiters_ok w r :
  choice_set_delimiters w = Some r → pass_ok false w r.
Proof.
  unfold choice_set_delimiters, with_input, input.
  destruct (stdin w) as [|line1 [|line2 rest]] eqn:Hin; simpl.
  - intros [= <-]. apply pass_ok_nothing; [done | done | simpl; lia ].
  - intros [= <-]. apply pass_ok_nothing; [done | done | simpl; lia ].
  - intros [= <-]. unfold pass_ok. split_and!; world_simpl.
    + apply menu_delimiters.
    + rewrite Hin. simpl. lia.
    + right; left. unfold menu_set_delimiters, set_delimiters.
      by case_bool_decide.
    + done.
Qed.

Lemma run_generate_ok fmt field ts w r :
  template_content (merger w) ≠ "" → csv_data (merger w) ≠ [] →
  run_generate fmt field ts w = Some r → pass_ok false w r.
Proof.
  intros Ht Hr. unfold run_generate.
  destruct (generate_output fmt field ts (merger w) (disk w))
    as [[[[st' fs'] [|]]|msg]|] eqn:Hgen; [| | |done]; intros [= <-].
  - unfold pass_ok. split_and!; world_simpl.
    + by eapply menu_generated.
    + done.
    + right; right. apply last_snoc.
    + done.
  - unfold pass_ok. split_and!; world_simpl.
    + rewrite report_errors_merger. by eapply menu_generate_failed.
    + by rewrite report_errors_stdin.
    + left. by rewrite report_errors_merger.
    + done.
  - apply pass_ok_nothing; [done | done | simpl; lia].
Qed.

Lemma choice_generate_ok ts w r :
  choice_generate ts w = Some r → pass_ok false w r.
Proof.
  unfold choice_generate.
  destruct (bool_decide (template_content (merger w) = "")
            || bool_decide (csv_data (merger w) = [])) eqn:Hguard.
  - intros [= <-]. apply pass_ok_nothing; [done | done | simpl; lia ].
  - apply orb_false_iff in Hguard
      as [Ht%bool_decide_eq_false Hr%bool_decide_eq_false].
    unfold with_input at 1, input.
    destruct (stdin w) as [|line rest] eqn:Hin; simpl.
    + intros [= <-]. apply pass_ok_nothing; [done | done | simpl; lia ].
    + case_bool_decide.
      * unfold with_input, input. simpl.
        destruct rest as [|line2 rest]; simpl.
        { intros [= <-].
          apply pass_ok_nothing; [done | done | simpl; rewrite Hin; simpl; lia ]. }
        intros Hrun%run_generate_ok; [|done..].
        refine (pass_ok_after_input w _ r _ _ Hrun);
          [done | simpl; rewrite Hin; simpl; lia].
      * intros Hrun%run_generate_ok; [|done..].
        refine (pass_ok_after_input w _ r _ _ Hrun);
          [done | simpl; rewrite Hin; simpl; lia].
Qed.

Lemma menu_iteration_ok env ts w r :
  menu_iteration env ts w = Some r → pass_ok true w r.
Proof.
  unfold menu_iteration, with_input at 1, input. world_simpl.
  destruct (stdin w) as [|line rest] eqn:Hin; world_simpl.
  - intros [= <-]. unfold pass_ok. split_and!; simpl; [apply menu_nothing | done | by right; left | done].
  - set (w1 := World (merger w) (disk w) rest
                     (stdout w ++ [Print menu_text]
                      ++ [Prompt "Enter your choice (1-6): "])).
    rewrite <- (app_assoc (stdout w)). fold w1.
    assert (Hlen : length (stdin w1) < length (stdin w))
      by (rewrite Hin; simpl; lia).
    intros Hbranch.
    assert (Hcases : pass_ok false w1 r
                     ∨ r = Break (print "Goodbye!" w1)).
    { destruct (bool_decide (str_strip line = "1"));
        [left; by eapply choice_load_template_ok|].
      destruct (bool_decide (str_strip line = "2"));
        [left; by eapply choice_load_csv_ok|].
      destruct (bool_decide (str_strip line = "3"));
        [left; by eapply choice_set_delimiters_ok|].
      destruct (bool_decide (str_strip line = "4"));
        [left; by eapply choice_generate_ok|].
      destruct (bool_decide (str_strip line = "5")).
      { left. unfold choice_examples in Hbranch. injection Hbranch as <-.
        apply pass_ok_nothing; [done | done | simpl; lia]. }
      destruct (bool_decide (str_strip line = "6"));
        [right; by injection Hbranch as <-|].
      left. injection Hbranch as <-.
      apply pass_ok_nothing; [done | done | simpl; lia]. }
    destruct Hcases as [Hok| ->].
    + by apply (pass_ok_strict w w1 r eq_refl Hlen).
    + unfold pass_ok. split_and!; world_simpl.
      * apply menu_nothing.
      * done.
      * by right; left.
      * intros w' [= <-]. split; [done|]. simpl. apply last_snoc.
Qed.

Lemma run_generate_total fmt field ts w :
  ∃ r, run_generate fmt field ts w = Some r.
Proof.
  unfold run_generate.
  destruct (generate_output_total fmt field ts (merger w) (disk w))
    as [[[[st' fs'] [|]]|msg] ->]; by eexists.
Qed.

Lemma menu_iteration_total env ts w :
  ∃ r, menu_iteration env ts w = Some r.
Proof.
  unfold menu_iteration, with_input at 1, input. world_simpl.
  destruct (stdin w) as [|line rest]; world_simpl; [by eexists|].
  destruct (bool_decide (str_strip line = "1")).
  { unfold choice_load_template, with_input, input. world_simpl.
    destruct rest; world_simpl; [by eexists|].
    destruct (load_template _ _ _).2; by eexists. }
  destruct (bool_decide (str_strip line = "2")).
  { unfold choice_load_csv, with_input, input. world_simpl.
    destruct rest; world_simpl; [by eexists|].
    destruct (load_csv_data _ _ _).2; by eexists. }
  destruct (bool_decide (str_strip line = "3")).
  { unfold choice_set_delimiters, with_input, input. world_simpl.
    destruct rest as [|? [|? ?]]; world_simpl; by eexists. }
  destruct (bool_decide (str_strip line = "4")).
  { unfold choice_generate. world_simpl.
    destruct (_ || _); [by eexists|].
    unfold with_input at 1, input. world_simpl.
    destruct rest as [|line2 rest]; world_simpl; [by eexists|].
    destruct (bool_decide (str_strip line2 = "1"));
      [|apply run_generate_total].
    unfold with_input, input. world_simpl.
    destruct rest; world_simpl; [by eexists | apply run_generate_total]. }
  destruct (bool_decide (str_strip line = "5")); [by eexists|].
  destruct (bool_decide (str_strip line = "6")); by eexists.
Qed.

Lemma main_loop_total env clock fuel n w :
  length (stdin w) < fuel → ∃ r, main_loop env clock fuel n w = Some r.
Proof.
  revert n w. induction fuel as [|fuel IH]; intros n w Hlen; [lia|].
  simpl. destruct (menu_iteration_total env (clock n) w) as [r Hr].
  rewrite Hr. destruct r as [w'|w'|msg w']; [|by eexists..].
  apply IH. apply menu_iteration_ok in Hr as (_ & Hin & _).
  specialize (Hin w' eq_refl). lia.
Qed.

Lemma main_loop_end env clock fuel n w r :
  main_loop env clock fuel n w = Some r →
  rtc menu_transition (merger w) (merger (world_of r))
  ∧ (∀ w', r ≠ Continue w')
  ∧ (∀ w', r = Break w' → last (stdout w') = Some (Print "Goodbye!")).
Proof.
  revert n w. induction fuel as [|fuel IH]; intros n w; [done|]. simpl.
  destruct (menu_iteration env (clock n) w) as [r'|] eqn:Hr; [|done].
  apply menu_iteration_ok in Hr as (Ht & _ & _ & Hbr).
  destruct r' as [w'|w'|msg w'].
  - intros (Hrtc & Hend)%IH. split; [|done]. by eapply rtc_l.
  - intros [= <-]. split_and!; [by apply rtc_once | done |].
    intros ? [= <-]. by destruct (Hbr w' eq_refl).
  - intros [= <-]. split_and!; [by apply rtc_once | done | done].
Qed.

(** X10.  [main] always ends: the loop makes at most one pass per line of
    input and one more.  It returns after the line ["Goodbye!"], or it ends
    with an exception nobody catches (the end of the input, or the one of
    [os.makedirs]). *)
Theorem main_terminates (env : FS → Env) (clock : nat → string)
    (lines : list string) (fs : FS) :
  ∃ r, main env clock lines fs = Some r
       ∧ match r with
         | Continue _ => False
         | Break w => last (stdout w) = Some (Print "Goodbye!")
         | Uncaught _ _ => True
         end.
Proof.
  unfold main.
  destruct (main_loop_total env clock (S (length lines)) 0
              (print (String newline "=== Mail Merge Generator ===")
                     (World __init__ fs lines []))) as [r Hr];
    [simpl; lia|].
  exists r. split; [done|].
  apply main_loop_end in Hr as (_ & Hc & Hb).
  destruct r as [w|w|msg w]; [by destruct (Hc w) | by apply Hb | done].
Qed.

Lemma menu_transition_reachable st st' :
  menu_transition st st' →
  reachable nonempty_pair st → reachable nonempty_pair st'.
Proof.
  intros [st0|env path st0 _|env path st0 _|env path st0 _|env path st0 _
          |a b st0|fmt field ts st0 fs st1 fs1 _ _ Hgen
          |fmt field ts st0 fs st1 fs1 _ _ Hgen] Hreach.
  - done.
  - by apply reach_load_template.
  - by apply reach_clear_errors, reach_load_template.
  - by apply reach_load_csv_data.
  - by apply reach_clear_errors, reach_load_csv_data.
  - by apply reach_menu_set_delimiters.
  - by eapply reach_generate_output.
  - apply reach_clear_errors. by eapply reach_generate_output.
Qed.

Lemma generate_output_ok_errors fmt field ts st fs st' fs' :
  generate_output fmt field ts st fs = Some (Ok (st', fs', true)) →
  ∃ fails, errors st' = errors st ++ row_errors fails.
Proof.
  unfold generate_output, _ready_to_generate.
  case_bool_decide; [done|]. case_bool_decide; [done|].
  destruct (makedirs_error fs (output_dir st)); [done|].
  case_bool_decide.
  - rewrite combined_output_own. destruct (csv_data st); [done|].
    cbv zeta. destruct (write_error fs _); [done|].
    destruct (write_fault fs _ _) as [[msg rest]|]; [done|].
    intros [= <- <-]. exists []. by rewrite app_nil_r.
  - unfold _generate_individual_files, individual_with.
    destruct (individual_loop own_merge field 0 (csv_data st) st fs 0)
      as [[[st1 fs1] n1]|] eqn:Hloop; [|done].
    intros [= <- <- _].
    apply individual_loop_account in Hloop as (fails & Herr & _).
    by exists fails.
Qed.

Lemma row_errors_are_row_errors fails : Forall is_row_error (row_errors fails).
Proof.
  unfold row_errors. apply Forall_fmap, Forall_forall.
  intros [i msg] _. by exists i, msg.
Qed.

Lemma menu_transition_row_errors st st' :
  menu_transition st st' →
  Forall is_row_error (errors st) → Forall is_row_error (errors st').
Proof.
  intros [st0|env path st0 Hok|env path st0 _|env path st0 Hok|env path st0 _
          |a b st0|fmt field ts st0 fs st1 fs1 _ _ Hgen
          |fmt field ts st0 fs st1 fs1 _ _ Hgen] Hlog; try by constructor.
  - done.
  - by rewrite load_template_ok_errors.
  - by rewrite load_csv_data_ok_errors.
  - unfold menu_set_delimiters, set_delimiters. by case_bool_decide.
  - apply generate_output_ok_errors in Hgen as [fails ->].
    apply Forall_app. split; [done | apply row_errors_are_row_errors].
Qed.

Lemma not_ready_messages_are_no_row_errors :
  ¬ is_row_error "No template loaded" ∧ ¬ is_row_error "No CSV data loaded".
Proof. split; intros (i & msg & Heq); discriminate Heq. Qed.

(** X11.  Whatever the input, at the end of [main] the error log holds
    nothing but entries of failed rows.  In particular the entries
    ["No template loaded"] and ["No CSV data loaded"] never arise through
    the menu: it calls [generate_output] only with both inputs loaded. *)
Theorem main_log_holds_row_errors_only (env : FS → Env)
    (clock : nat → string) (lines : list string) (fs : FS) (r : step_result) :
  main env clock lines fs = Some r →
  Forall is_row_error (errors (merger (world_of r)))
  ∧ ("No template loaded" ∉ errors (merger (world_of r)))
  ∧ ("No CSV data loaded" ∉ errors (merger (world_of r))).
Proof.
  unfold main. intros (Hrtc & _)%main_loop_end. simpl in Hrtc.
  assert (Hlog : Forall is_row_error (errors (merger (world_of r)))).
  { revert Hrtc. generalize (merger (world_of r)). intros st' Hrtc.
    assert (Hinit : Forall is_row_error (errors __init__)) by constructor.
    revert Hinit. induction Hrtc as [st|st1 st2 st3 Hstep _ IH]; [done|].
    intros Hlog. by apply IH, (menu_transition_row_errors st1). }
  destruct not_ready_messages_are_no_row_errors as [Ht Hc].
  rewrite Forall_forall in Hlog.
  split_and!; [by apply Forall_forall | |]; intros Hin%Hlog; done.
Qed.

(** X12.  Every state the generator is in at the end of [main] is one that
    calls with non-empty markers reach: its delimiters are non-empty, and
    its placeholder list is the one extraction computes from its template
    and delimiters. *)
Theorem main_keeps_generator_consistent (env : FS → Env)
    (clock : nat → string) (lines : list string) (fs : FS) (r : step_result) :
  main env clock lines fs = Some r →
  let st := merger (world_of r) in
  reachable nonempty_pair st
  ∧ (current_delimiters st).1 ≠ "" ∧ (current_delimiters st).2 ≠ ""
  ∧ placeholders_in_sync st.
Proof.
  unfold main. intros (Hrtc & _)%main_loop_end. simpl in Hrtc.
  assert (Hreach : reachable nonempty_pair (merger (world_of r))).
  { revert Hrtc. generalize (merger (world_of r)). intros st' Hrtc.
    assert (Hinit : reachable nonempty_pair __init__) by apply reach_init.
    revert Hinit. induction Hrtc as [st|st1 st2 st3 Hstep _ IH]; [done|].
    intros Hr. by apply IH, (menu_transition_reachable st1). }
  simpl. split; [done|].
  by destruct (reachable_in_sync_nonempty _ Hreach) as [? [? ?]].
Qed.

(** X13.  A pass through the menu that starts with an empty error log ends
    with an empty log again, with one exception: a generation that was
    announced as complete although rows failed leaves the entries of those
    rows in the log, unprinted. *)
Theorem menu_pass_leaves_log_empty (env : FS → Env) (timestamp : string)
    (w : world) (r : step_result) :
  menu_iteration env timestamp w = Some r →
  errors (merger w) = [] →
  errors (merger (world_of r)) = []
  ∨ (last (stdout (world_of r)) = Some (Print "Generation complete!")
     ∧ Forall is_row_error (errors (merger (world_of r)))).
Proof.
  intros (Ht & _ & [Herr|[Herr|Hlast]] & _)%menu_iteration_ok Hempty.
  - by left.
  - left. by rewrite Herr.
  - right. split; [done|].
    apply (menu_transition_row_errors _ _ Ht). rewrite Hempty. constructor.
Qed.

Lemma main_log_holds_row_errors_only_witness :
  ∃ r,
    main (λ _, env_mixed) (λ _, "20261103_120000") session_mixed fs_empty
    = Some r
    ∧ errors (merger (world_of r))
      = ["Error processing row 2: 'NoneType' object has no attribute 'strip'"]
    ∧ Forall is_row_error (errors (merger (world_of r))).
Proof.
  destruct (main (λ _, env_mixed) (λ _, "20261103_120000") session_mixed
              fs_empty) as [r|] eqn:Hmain; [|by vm_compute in Hmain].
  exists r. split; [done|].
  destruct (main_log_holds_row_errors_only _ _ _ _ _ Hmain) as [Hlog _].
  split; [|done]. clear Hlog. vm_compute in Hmain.
  injection Hmain as <-. reflexivity.
Defined.

Lemma main_keeps_generator_consistent_witness :
  ∃ r,
    main (λ _, env_mixed) (λ _, "20261103_120000")
         ["3"; "<<"; ""; "1"; "letter.txt"] fs_empty = Some r
    ∧ current_delimiters (merger (world_of r)) = ("<<", "}}")
    ∧ placeholders_in_sync (merger (world_of r)).
Proof.
  destruct (main (λ _, env_mixed) (λ _, "20261103_120000")
              ["3"; "<<"; ""; "1"; "letter.txt"] fs_empty)
    as [r|] eqn:Hmain; [|by vm_compute in Hmain].
  exists r. split; [done|].
  destruct (main_keeps_generator_consistent _ _ _ _ _ Hmain)
    as (_ & _ & _ & Hsync).
  split; [|done]. clear Hsync. vm_compute in Hmain.
  injection Hmain as <-. reflexivity.
Defined.

Lemma menu_pass_leaves_log_empty_witness :
  ∃ r,
    menu_iteration (λ _, env_mixed) "20261103_120000" world_before_generation
    = Some r
    ∧ errors (merger world_before_generation) = []
    ∧ last (stdout (world_of r)) = Some (Print "Generation complete!")
    ∧ errors (merger (world_of r))
      = ["Error processing row 2: 'NoneType' object has no attribute 'strip'"].
Proof.
  destruct (menu_iteration (λ _, env_mixed) "20261103_120000"
              world_before_generation) as [r|] eqn:Hpass;
    [|by vm_compute in Hpass].
  exists r. split; [done|]. split; [done|].
  destruct (menu_pass_leaves_log_empty _ _ _ _ Hpass eq_refl)
    as [Hempty|[Hlast _]].
  - exfalso. vm_compute in Hpass. injection Hpass as <-. discriminate Hempty.
  - split; [done|]. clear Hlast. vm_compute in Hpass.
    injection Hpass as <-. reflexivity.
Defined.

(** ** Further properties of merging and of single rows *)

Lemma merge_fold_agree start e (row row' : Row) names content :
  (∀ ph, ph ∈ names → row !! ph = row' !! ph) →
  foldl (merge_step start e row) content names
  = foldl (merge_step start e row') content names.
Proof.
  revert content. induction names as [|name names IH]; intros content Hagree;
    simpl; [done|].
  assert (merge_step start e row content name
          = merge_step start e row' content name) as ->.
  { unfold merge_step, value_for. by rewrite (Hagree name) by left. }
  apply IH. intros ph Hph. apply Hagree. by right.
Qed.

(** X14.  The merged text of a row depends on the row only through the
    cells under the placeholder names: columns the template does not mention
    have no effect on it. *)
Theorem merge_ignores_other_columns (st : state) (row row' : Row) :
  (∀ ph, ph ∈ placeholders st → row !! ph = row' !! ph) →
  _merge_template st row = _merge_template st row'.
Proof. intros Hagree. rewrite !merge_template_fold. by apply merge_fold_agree. Qed.

Lemma merge_ignores_other_columns_witness :
  _merge_template state_hi_x {[ "x" := Text "Ann"; "age" := Text "41" ]}
  = _merge_template state_hi_x {[ "x" := Text "Ann" ]}.
Proof.
  apply merge_ignores_other_columns. intros ph Hph.
  assert (ph = "x") as -> by (vm_compute in Hph; set_solver).
  by vm_compute.
Defined.

(** X15.  With the class's own merge, a row fails in individual mode in
    exactly two ways: the filename field is given and the row has [None]
    under it (the line was shorter than the header), or the write to the
    path chosen for the row raises.  The directory is unchanged unless the
    write raised after the file was opened; then the file exists and holds
    what reached it. *)
Theorem individual_row_failure (filename_field : option string) (i : nat)
    (row : Row) (st : state) (fs fs' : FS) (msg : string) :
  write_row own_merge filename_field i row st fs = Some (fs', Raise msg)
  ↔ (∃ field, filename_field = Some field ∧ field ≠ ""
              ∧ row !! field = Some PyNone
              ∧ msg = "'NoneType' object has no attribute 'strip'"
              ∧ fs' = fs)
    ∨ (∃ base path,
         base_filename filename_field i row = Ok base
         ∧ free_output_path fs (output_dir st) base = Some path
         ∧ ((write_error fs path = Some msg ∧ fs' = fs)
            ∨ (write_error fs path = None
               ∧ ∃ rest,
                   write_fault fs path (_merge_template st row)
                   = Some (msg, rest)
                   ∧ fs' = with_file fs path rest))).
Proof.
  unfold write_row, own_merge.
  destruct (base_filename filename_field i row) as [base|msg'] eqn:Hbase.
  - destruct (free_output_path_total fs (output_dir st) base)
      as (k & Hpath & _). rewrite Hpath. unfold write_file. split.
    + destruct (write_error fs _) as [msg'|] eqn:Hw.
      * intros [= <- ->]. right.
        exists base, (candidate_path (output_dir st) base k).
        split_and!; [done..|]. by left.
      * destruct (write_fault fs _ _) as [[msg' rest]|] eqn:Hf; [|done].
        intros [= <- ->]. right.
        exists base, (candidate_path (output_dir st) base k).
        split_and!; [done..|]. right. split; [done|]. by exists rest.
    + intros [(f & -> & Hne & Hrow & _)|(base' & path & Hb & Hp & Hw)].
      * unfold base_filename in Hbase.
        by rewrite bool_decide_eq_true_2, Hrow in Hbase by done.
      * injection Hb as <-. rewrite Hpath in Hp. injection Hp as <-.
        destruct Hw as [[Hw ->]|(Hw & rest & Hf & ->)].
        -- by rewrite Hw.
        -- by rewrite Hw, Hf.
  - split.
    + intros [= <- ->]. left. unfold base_filename in Hbase.
      destruct filename_field as [f|]; [|done].
      case_bool_decide; [|done].
      destruct (row !! f) as [[v|]|] eqn:Hrow; [done| |done].
      injection Hbase as <-. by exists f.
    + intros [(f & -> & Hne & Hrow & -> & ->)|(base & path & [=] & _)].
      unfold base_filename in Hbase.
      rewrite bool_decide_eq_true_2, Hrow in Hbase by done.
      by injection Hbase as <-.
Qed.

(** X16.  A generation that ends changes nothing in the generator but the
    error log: template, placeholders, rows, delimiters and output directory
    are as before, so it can be repeated. *)
Theorem generate_output_changes_only_log (fmt : string)
    (field : option string) (ts : string) (st st' : state) (fs fs' : FS)
    (ok : bool) :
  generate_output fmt field ts st fs = Some (Ok (st', fs', ok)) →
  template_content st' = template_content st
  ∧ placeholders st' = placeholders st
  ∧ csv_data st' = csv_data st
  ∧ current_delimiters st' = current_delimiters st
  ∧ output_dir st' = output_dir st.
Proof.
  intros [(Ht & Hp & Ho & Hd) Hr]%generate_output_frame. done.
Qed.

Lemma generate_output_changes_only_log_witness :
  ∃ st' fs',
    generate_output "separate" (Some "name") "20261103_120000"
                    state_mixed_rows fs_empty = Some (Ok (st', fs', true))
    ∧ csv_data st' = csv_data state_mixed_rows
    ∧ placeholders st' = ["name"].
Proof.
  destruct (generate_output "separate" (Some "name") "20261103_120000"
              state_mixed_rows fs_empty) as [[[[st' fs'] ok]|]|] eqn:Hgen;
    [|by vm_compute in Hgen..].
  destruct (generate_output_changes_only_log _ _ _ _ _ _ _ _ Hgen)
    as (_ & Hp & Hr & _).
  assert (ok = true) as ->.
  { vm_compute in Hgen. by injection Hgen as _ _ <-. }
  exists st', fs'. split_and!; [done | done |]. rewrite Hp. by vm_compute.
Defined.
